(** * NeuralSEA training script (train.py): a shallow embedding

    The script trains a multi-label classifier with an epoch loop:
    a training pass, a validation pass, a plateau scheduler step and a
    checkpoint per epoch.  This file embeds the control logic and the
    numeric aggregation of [train.py] and states the properties of the
    specification over that embedding.

    Numbers.  Python and torch floats are modelled by rationals ([Q]):
    every finite float is a rational, and the arithmetic of the model is
    exact (the rounding error of the IEEE operations, infinities and NaN
    are outside the model).  The classifier, the objective, the optimizer
    update, the logistic function and the data loader are collaborators of
    the script; they are the fields of the class [Collaborators]. *)

From Stdlib Require Import QArith Qround Qabs ZArith Lia List String Ascii.
From Stdlib Require Import DecimalString DecimalZ DecimalPos Decimal.
From Stdlib Require Import Permutation Lqa FinFun.
From stdpp Require Import gmap strings list fin_maps.
Import ListNotations.

Local Open Scope Z_scope.

(* ===================================================================== *)
(** ** Numbers: rounding *)
(* ===================================================================== *)

Module Num.

(** Round to the nearest integer, ties to the even one: what
    [torch.round] and Python's [round] do. *)
Definition round_half_even (x : Q) : Z :=
  let f := Qfloor x in
  match Qcompare (x - inject_Z f) (1 # 2) with
  | Lt => f
  | Gt => f + 1
  | Eq => if Z.even f then f else f + 1
  end.

(** Python's [round(x, ndigits)] on a float. *)
Definition py_round (x : Q) (ndigits : nat) : Q :=
  let p := Z.to_pos (10 ^ Z.of_nat ndigits) in
  Qmake (round_half_even (x * inject_Z (Z.pos p))) p.

End Num.
Export Num.

(* ===================================================================== *)
(** ** Tensors *)
(* ===================================================================== *)

(** A two-dimensional float tensor: one row per sample, one column per
    label. *)
Abbreviation Tensor := (list (list Q)).

Module Torch.

(** An elementwise function on a tensor ([torch.sigmoid], [.round()]). *)
Definition pointwise (f : Q -> Q) (t : Tensor) : Tensor := map (map f) t.

(** [t.round()] *)
Definition round (t : Tensor) : Tensor :=
  pointwise (fun x => inject_Z (round_half_even x)) t.

(** [a == b] on two tensors of one shape: the boolean tensor of the
    elementwise comparisons. *)
Definition eq (a b : Tensor) : list (list bool) :=
  zip_with (zip_with Qeq_bool) a b.

(** [torch.prod(m, dim=-1)] on a boolean tensor: the product of each row,
    an integer tensor (the product of no factor is 1). *)
Definition prod_last (m : list (list bool)) : list Z :=
  map (fun row => fold_right Z.mul 1 (map Z.b2z row)) m.

(** [torch.sum(v)] *)
Definition sum (v : list Z) : Z := fold_right Z.add 0 v.

End Torch.

(* ===================================================================== *)
(** ** Collaborators, the world and the script's monad *)
(* ===================================================================== *)

(** What the script takes from torch, numpy and the operating system
    without defining it.  Nothing is assumed of these functions. *)
Class Collaborators := {
  (** the classifier object: its parameters and its train/eval mode *)
  Net : Type;
  (** one sample of the input array *)
  Input : Type;
  (** the moment estimates the optimizer keeps between steps *)
  OptState : Type;
  (** the state of a random generator *)
  Rng : Type;
  (** a numpy array stored in a file *)
  Array : Type;
  (** a [DataLoader] *)
  Loader : Type;
  (** [net(input)]: the logits, one row per sample *)
  net_call : Net -> list Input -> Tensor;
  (** [net.train()] and [net.eval()] *)
  net_train : Net -> Net;
  net_eval : Net -> Net;
  (** [net.to(device)], the device being cuda or not *)
  net_to : bool -> Net -> Net;
  (** [NeuralSEA()]: a fresh network drawn from torch's generator *)
  net_init : Rng -> Rng * Net;
  (** the logistic function on floats *)
  sigmoid : Q -> Q;
  (** [nn.BCEWithLogitsLoss()] applied to an output and a target *)
  objective : Tensor -> Tensor -> Q;
  (** the state of a fresh [optim.Adam] *)
  adam_init : Net -> OptState;
  (** [optimizer.zero_grad(); loss.backward(); optimizer.step()] for the
      loss of one batch: learning rate, weight decay, optimizer state,
      network, input, target *)
  adam_step : Q -> Q -> OptState -> Net -> list Input -> Tensor ->
              Net * OptState;
  (** [np.random.seed] and [torch.manual_seed] *)
  rng_of_seed : Z -> Rng;
  (** [DataLoader(TensorDataset(x, y), batch_size, num_workers, shuffle)];
      [None] when the constructors raise (sizes that differ, a batch size
      that is not positive) *)
  make_loader : Array -> Array -> Z -> Z -> option Loader;
  (** one pass over a loader: the batches (input, target) it yields, in
      order, the shuffle drawn from torch's generator *)
  loader_iter : Loader -> Rng -> Rng * list (list Input * Tensor);
  (** Python's [str] of a float *)
  str_float : Q -> string;
}.

(** Exceptions the script can end with. *)
Inductive exn : Type :=
| ZeroDivisionError
| FileExistsError
| FileNotFoundError
| OSError
| ValueError
| Exception (msg : string).

Inductive outcome (A : Type) : Type :=
| Ret (a : A)
| Raise (e : exn).
Arguments Ret {A} a.
Arguments Raise {A} e.

(** The two visdom windows of [setup_visdom]. *)
Inductive window : Type := LossWin | AccWin.

(** A call [vis.line(X=[x], Y=[y], win=..., update=..., name=...)]. *)
Record vis_line := VisLine {
  vl_win : window; vl_x : Z; vl_y : Q; vl_update : string; vl_name : string
}.

(** Lines printed on the standard output. *)
Inductive event : Type :=
| PrintArgs
| PrintText (s : string)
| PrintDevice (cuda : bool)
| PrintWarmStart (path : string)
| PrintNet
| PrintObjective
| PrintOptimizer
| PrintProgress (epoch i len : Z) (loss : Q)
| PrintEpochCompleted (epoch : Z) (train_loss : Q)
| PrintValid (valid_loss valid_acc : Q)
| PrintReducingLR (new_lr : Q)
| PrintCheckpointSaved (path : string).

Section World.
Context `{Collaborators}.

(** A file is an array ([.npy]) or a pickled network ([.pth]). *)
Inductive content : Type :=
| Npy (a : Array)
| Pth (net : Net).

Inductive node : Type :=
| Dir
| File (c : content).

(** Everything outside the script's local variables. *)
Record world := World {
  (** the file system: what is at each path *)
  fs : gmap string node;
  (** may the process create or replace the entry at this path (its parent
      is a directory, permissions, space)? *)
  os_writable : string -> bool;
  stdout : list event;
  (** the calls received by the visdom server *)
  vis_calls : list vis_line;
  (** numpy's and torch's global generators *)
  np_rng : Rng;
  torch_rng : Rng;
  (** [torch.cuda.is_available()] *)
  cuda_is_available : bool;
  (** [torch.backends.cudnn.deterministic] and [.benchmark] *)
  cudnn_deterministic : bool;
  cudnn_benchmark : bool;
}.

(** A computation of the script: it changes the world and returns a value
    or raises. *)
Definition M (A : Type) : Type := world -> world * outcome A.

Definition ret {A} (a : A) : M A := fun w => (w, Ret a).

Definition raise {A} (e : exn) : M A := fun w => (w, Raise e).

Definition bind {A B} (c : M A) (k : A -> M B) : M B :=
  fun w =>
    match c w with
    | (w', Ret a) => k a w'
    | (w', Raise e) => (w', Raise e)
    end.

End World.

Declare Scope script_scope.
Delimit Scope script_scope with script.
Notation "x <- c ;; k" := (bind c (fun x => k))
  (at level 100, c at next level, right associativity) : script_scope.
Notation "c ;; k" := (bind c (fun _ => k))
  (at level 100, right associativity) : script_scope.

(* ===================================================================== *)
(** ** The plateau scheduler *)
(* ===================================================================== *)

Module Plateau.

(** The fixed reduction factor. *)
Definition factor : Q := 1 # 10.

(** The threshold [get_lr_scheduler] leaves at the library's default. *)
Definition default_threshold : Q := 1 # 10000.

(** Scheduler State: the current learning rate, the best loss seen so far
    (none before the first epoch: plus infinity) and the count of epochs
    since the last improvement. *)
Record state := State {
  current_rate : Q;
  best_loss : option Q;
  wait_counter : Z;
}.

Definition Qlt_bool (a b : Q) : bool := negb (Qle_bool b a).

(** Is the loss [L] lower than the best loss by more than the threshold,
    the threshold being measured relative to the best loss? *)
Definition is_better (threshold : Q) (L : Q) (best : option Q) : bool :=
  match best with
  | None => true
  | Some b => Qlt_bool L (b * (1 - threshold))
  end.

(** Modelled from the spec: the transition rule of the plateau scheduler,
    invoked once per epoch with the validation loss [L].  The script
    builds torch's [ReduceLROnPlateau], whose code is not under src/; the
    rule is the one of section 4.3 of the specification.  The threshold
    the specification leaves unnamed is the parameter [threshold].  The
    boolean tells whether the rate was reduced. *)
Definition step (patience : Z) (threshold : Q) (s : state) (L : Q)
  : state * bool :=
  if is_better threshold L (best_loss s)
  then (State (current_rate s) (Some L) 0, false)
  else
    let wait := wait_counter s + 1 in
    if patience <? wait
    then (State (current_rate s * factor) (best_loss s) 0, true)
    else (State (current_rate s) (best_loss s) wait, false).

(** The initial state. *)
Definition init (rate : Q) : state := State rate None 0.

(** The scheduler over the validation losses of the successive epochs:
    the state after the last one. *)
Definition run (patience : Z) (threshold : Q) (s : state) (losses : list Q)
  : state :=
  fold_left (fun s L => fst (step patience threshold s L)) losses s.

(** The learning rate in effect at each epoch 1, 2, ..., and after the
    last one: a rate set by the step of epoch [k] is in effect from
    epoch [k + 1]. *)
Fixpoint rates (patience : Z) (threshold : Q) (s : state) (losses : list Q)
  : list Q :=
  match losses with
  | [] => [current_rate s]
  | L :: rest =>
      current_rate s :: rates patience threshold (fst (step patience threshold s L)) rest
  end.

(** The epochs (numbered from [k]) at which the rate is reduced. *)
Fixpoint reductions (patience : Z) (threshold : Q) (k : Z) (s : state)
    (losses : list Q) : list Z :=
  match losses with
  | [] => []
  | L :: rest =>
      let '(s', reduced) := step patience threshold s L in
      (if reduced then [k] else [])
      ++ reductions patience threshold (k + 1) s' rest
  end.

(** Each loss is lower than the one before it. *)
Fixpoint strictly_decreasing (losses : list Q) : Prop :=
  match losses with
  | a :: (b :: _) as rest => (b < a)%Q /\ strictly_decreasing rest
  | _ => True
  end.

(** Each loss is better than the best loss before it, by more than the
    threshold. *)
Fixpoint improving (threshold : Q) (best : option Q) (losses : list Q)
  : Prop :=
  match losses with
  | [] => True
  | L :: rest =>
      is_better threshold L best = true /\ improving threshold (Some L) rest
  end.

(** The state after each of the first epochs [ns]. *)
Definition states_after (patience : Z) (threshold : Q) (s : state)
    (losses : list Q) (ns : list nat) : list state :=
  map (fun n => run patience threshold s (firstn n losses)) ns.

End Plateau.

(* ===================================================================== *)
(** ** The script *)
(* ===================================================================== *)

Section Script.
Context `{Collaborators}.
Local Open Scope script_scope.

(** *** Primitive effects *)

Definition print (e : event) : M unit :=
  fun w => (World (fs w) (os_writable w) (stdout w ++ [e]) (vis_calls w)
                  (np_rng w) (torch_rng w) (cuda_is_available w)
                  (cudnn_deterministic w) (cudnn_benchmark w), Ret tt).

Definition set_fs (f : gmap string node) (w : world) : world :=
  World f (os_writable w) (stdout w) (vis_calls w) (np_rng w) (torch_rng w)
        (cuda_is_available w) (cudnn_deterministic w) (cudnn_benchmark w).

Definition set_torch_rng (r : Rng) (w : world) : world :=
  World (fs w) (os_writable w) (stdout w) (vis_calls w) (np_rng w) r
        (cuda_is_available w) (cudnn_deterministic w) (cudnn_benchmark w).

(** [vis.line(...)] *)
Definition vis_line_call (l : vis_line) : M unit :=
  fun w => (World (fs w) (os_writable w) (stdout w) (vis_calls w ++ [l])
                  (np_rng w) (torch_rng w) (cuda_is_available w)
                  (cudnn_deterministic w) (cudnn_benchmark w), Ret tt).

(** [torch.cuda.is_available()] *)
Definition torch_cuda_is_available : M bool :=
  fun w => (w, Ret (cuda_is_available w)).

(** [os.path.exists(p)] *)
Definition os_path_exists (p : string) : M bool :=
  fun w => (w, Ret (bool_decide (is_Some (fs w !! p)))).

(** [os.mkdir(p)]: an entry at [p], of any kind, is [FileExistsError]. *)
Definition os_mkdir (p : string) : M unit :=
  fun w =>
    match fs w !! p with
    | Some _ => (w, Raise FileExistsError)
    | None =>
        if os_writable w p then (set_fs (<[p := Dir]> (fs w)) w, Ret tt)
        else (w, Raise OSError)
    end.

(** [os.path.join(a, b)] of posixpath. *)
Definition os_path_join (a b : string) : string :=
  match b with
  | String "/" _ => b
  | _ =>
      if orb (String.eqb a "") (String.eqb (substring (String.length a - 1) 1 a) "/")
      then a ++ b
      else a ++ "/" ++ b
  end%string.

(** [torch.save(net, path)]: writes the file, replacing what was there;
    it cannot replace a directory. *)
Definition torch_save (net : Net) (path : string) : M unit :=
  fun w =>
    match fs w !! path with
    | Some Dir => (w, Raise OSError)
    | _ =>
        if os_writable w path
        then (set_fs (<[path := File (Pth net)]> (fs w)) w, Ret tt)
        else (w, Raise OSError)
    end.

(** [np.load(path)] *)
Definition np_load (path : string) : M Array :=
  fun w =>
    match fs w !! path with
    | Some (File (Npy a)) => (w, Ret a)
    | Some _ => (w, Raise ValueError)
    | None => (w, Raise FileNotFoundError)
    end.

(** [torch.load(path)] *)
Definition torch_load (path : string) : M Net :=
  fun w =>
    match fs w !! path with
    | Some (File (Pth net)) => (w, Ret net)
    | Some _ => (w, Raise ValueError)
    | None => (w, Raise FileNotFoundError)
    end.

(** Python's [str] of an int. *)
Definition str_int (n : Z) : string := NilZero.string_of_int (Z.to_int n).

(** [a / n] for a float [a] and an int [n]. *)
Definition float_div_int (a : Q) (n : Z) : M Q :=
  if n =? 0 then raise ZeroDivisionError else ret (a / inject_Z n)%Q.

(** *** Command line *)

Record Args := {
  batch_size : Z;
  valid_batch_size : Z;
  epochs : Z;
  lr : Q;
  l2 : Q;
  patience : Z;
  warm_start : string;
  cuda : bool;
  visdom : bool;
  env : string;
  X_train : string;
  y_train : string;
  X_valid : string;
  y_valid : string;
  threads : Z;
  pth_dir : string;
  seed_arg : Z;
}.

(** *** seed *)

Definition seed (s : Z) : M unit :=
  fun w =>
    let r := rng_of_seed s in
    if cuda_is_available w
    then (World (fs w) (os_writable w) (stdout w) (vis_calls w) r r
                (cuda_is_available w) true false, Ret tt)
    else (World (fs w) (os_writable w) (stdout w) (vis_calls w) r r
                (cuda_is_available w) (cudnn_deterministic w)
                (cudnn_benchmark w), Ret tt).

(** *** setup_visdom *)

Definition setup_visdom (env : string) : M (window * window) :=
  vis_line_call (VisLine LossWin 1 0 "" "train") ;;
  vis_line_call (VisLine LossWin 1 0 "new" "valid") ;;
  vis_line_call (VisLine AccWin 1 0 "" "valid") ;;
  ret (LossWin, AccWin).

(** *** setup_device *)

Definition setup_device (use_cuda : bool) : M bool :=
  available <- torch_cuda_is_available ;;
  if use_cuda && negb available
  then raise (Exception "No GPU found, please run without: --cuda")
  else
    let device := if use_cuda then true else false in
    print (PrintDevice device) ;;
    print (PrintText "===============") ;;
    ret device.

(** *** get_dataset_loader *)

Definition get_dataset_loader (X_path y_path : string) (batch_size threads : Z)
  : M Loader :=
  print (PrintText "Load set") ;;
  print (PrintText "===============") ;;
  x <- np_load X_path ;;
  y <- np_load y_path ;;
  match make_loader x y batch_size threads with
  | Some dataset_loader => ret dataset_loader
  | None => raise ValueError
  end.

(** *** build_net *)

Definition build_net (warm_start : string) (device : bool) : M Net :=
  print (PrintText "Building the network") ;;
  net <- (if negb (String.eqb warm_start "")
          then
            print (PrintWarmStart warm_start) ;;
            print (PrintText "===============") ;;
            net <- torch_load warm_start ;;
            ret (net_to device net)
          else
            fun w =>
              let '(r, net) := net_init (torch_rng w) in
              (set_torch_rng r w, Ret (net_to device net))) ;;
  print (PrintText "==============================") ;;
  print PrintNet ;;
  print (PrintText "==============================") ;;
  ret net.

(** *** get_objective *)

(** The objective is the collaborator [objective]; the function prints
    it. *)
Definition get_objective : M unit := print PrintObjective.

(** *** get_optimizer *)

(** The optimizer object: the one parameter group's learning rate and
    weight decay, and Adam's state. *)
Record optimizer := Optimizer {
  opt_lr : Q;
  opt_weight_decay : Q;
  opt_state : OptState;
}.

(** [optim.Adam] raises [ValueError] on a negative learning rate or
    weight decay. *)
Definition get_optimizer (net : Net) (lr l2 : Q) : M optimizer :=
  if Qle_bool 0 lr && Qle_bool 0 l2
  then
    let optimizer := Optimizer lr l2 (adam_init net) in
    print PrintOptimizer ;;
    ret optimizer
  else raise ValueError.

(** *** get_lr_scheduler *)

(** The scheduler object: the patience it was built with, the best loss
    seen (none before the first step) and the count of epochs without
    improvement.  It acts on the learning rate of the optimizer it was
    built on. *)
Record lr_scheduler := LrScheduler {
  sched_patience : Z;
  sched_best : option Q;
  sched_num_bad_epochs : Z;
}.

Definition get_lr_scheduler (optimizer : optimizer) (patience : Z)
  : M lr_scheduler :=
  ret (LrScheduler patience None 0).

(** [lr_scheduler.step(valid_loss)], with [verbose=True]: a reduction is
    printed. *)
Definition lr_scheduler_step (sch : lr_scheduler) (opt : optimizer)
    (metrics : Q) : M (lr_scheduler * optimizer) :=
  let '(s, reduced) :=
    Plateau.step (sched_patience sch) Plateau.default_threshold
      (Plateau.State (opt_lr opt) (sched_best sch) (sched_num_bad_epochs sch))
      metrics in
  let sch' := LrScheduler (sched_patience sch) (Plateau.best_loss s)
                          (Plateau.wait_counter s) in
  let opt' := Optimizer (Plateau.current_rate s) (opt_weight_decay opt)
                        (opt_state opt) in
  (if reduced then print (PrintReducingLR (Plateau.current_rate s))
   else ret tt) ;;
  ret (sch', opt').

(** *** train *)

(** One pass of the loader: [iter(loader)]. *)
Definition iterate (loader : Loader) : M (list (list Input * Tensor)) :=
  fun w =>
    let '(r, batches) := loader_iter loader (torch_rng w) in
    (set_torch_rng r w, Ret batches).

(** The body of the [for] loop of [train], from batch number [i] on. *)
Fixpoint train_loop (epoch len : Z) (i : Z)
    (batches : list (list Input * Tensor))
    (net : Net) (opt : optimizer) (epoch_loss : Q)
  : M (Net * optimizer * Q) :=
  match batches with
  | [] => ret (net, opt, epoch_loss)
  | data :: rest =>
      let input := fst data in
      let target := snd data in
      let output := net_call net input in
      let loss := objective output target in
      let epoch_loss := (epoch_loss + loss)%Q in
      let '(net, st) :=
        adam_step (opt_lr opt) (opt_weight_decay opt) (opt_state opt)
                  net input target in
      let opt := Optimizer (opt_lr opt) (opt_weight_decay opt) st in
      (if i mod 10000 =? 0
       then print (PrintProgress epoch i len (py_round loss 4))
       else ret tt) ;;
      train_loop epoch len (i + 1) rest net opt epoch_loss
  end.

(** [len(loader)] is the number of batches a pass yields. *)
Definition train (net : Net) (epoch : Z) (train_set_loader : Loader)
    (opt : optimizer) : M (Net * optimizer * Q) :=
  let net := net_train net in
  batches <- iterate train_set_loader ;;
  let len := Z.of_nat (length batches) in
  r <- train_loop epoch len 1 batches net opt 0%Q ;;
  let '(net, opt, epoch_loss) := r in
  mean <- float_div_int epoch_loss len ;;
  let train_loss := py_round mean 4 in
  print (PrintEpochCompleted epoch train_loss) ;;
  ret (net, opt, train_loss).

(** *** validate *)

(** The accuracy of one batch, lines 245-247:
    [(torch.sum(torch.prod(target == torch.sigmoid(output).round(),
    dim=-1)).float() / input.shape[0]).item()]. *)
Definition batch_accuracy (output target : Tensor) (shape0 : nat) : Q :=
  (inject_Z
     (Torch.sum
        (Torch.prod_last
           (Torch.eq target
              (Torch.round (Torch.pointwise sigmoid output)))))
   / inject_Z (Z.of_nat shape0))%Q.

(** The [for] loop of [validate]: the sums of the batch losses and of the
    batch accuracies. *)
Fixpoint validate_loop (batches : list (list Input * Tensor)) (net : Net)
    (avg_loss avg_acc : Q) : Q * Q :=
  match batches with
  | [] => (avg_loss, avg_acc)
  | data :: rest =>
      let input := fst data in
      let target := snd data in
      let output := net_call net input in
      let loss := objective output target in
      let avg_loss := (avg_loss + loss)%Q in
      let avg_acc :=
        (avg_acc + batch_accuracy output target (length input))%Q in
      validate_loop rest net avg_loss avg_acc
  end.

Definition validate (net : Net) (valid_set_loader : Loader)
  : M (Net * Q * Q) :=
  let net := net_eval net in
  batches <- iterate valid_set_loader ;;
  let len := Z.of_nat (length batches) in
  let '(avg_loss, avg_acc) := validate_loop batches net 0%Q 0%Q in
  mean_loss <- float_div_int avg_loss len ;;
  let valid_loss := py_round mean_loss 4 in
  mean_acc <- float_div_int avg_acc len ;;
  let valid_acc := py_round mean_acc 4 in
  print (PrintValid valid_loss valid_acc) ;;
  ret (net, valid_loss, valid_acc).

(** *** checkpoint *)

Definition checkpoint_name (epoch : Z) (valid_loss : Q) : string :=
  ("neuralsea-epoch-" ++ str_int epoch ++ "-loss-" ++ str_float valid_loss
   ++ ".pth")%string.

Definition checkpoint (net : Net) (pth_dir : string) (epoch : Z)
    (valid_loss : Q) : M unit :=
  pth_exists <- os_path_exists pth_dir ;;
  (if negb pth_exists then os_mkdir pth_dir else ret tt) ;;
  let path := os_path_join pth_dir (checkpoint_name epoch valid_loss) in
  torch_save net path ;;
  print (PrintCheckpointSaved path).

(** The steps of [checkpoint] with a step [other] of another process
    between the existence check of line 260 and the [os.mkdir] of
    line 261. *)
Definition checkpoint_interleaved (other : world -> world) (net : Net)
    (pth_dir : string) (epoch : Z) (valid_loss : Q) : M unit :=
  pth_exists <- os_path_exists pth_dir ;;
  (fun w => (other w, Ret tt)) ;;
  (if negb pth_exists then os_mkdir pth_dir else ret tt) ;;
  let path := os_path_join pth_dir (checkpoint_name epoch valid_loss) in
  torch_save net path ;;
  print (PrintCheckpointSaved path).

(** *** The main block *)

(** [range(1, epochs + 1)] *)
Definition epoch_range (epochs : Z) : list Z :=
  map Z.of_nat (seq 1 (Z.to_nat epochs)).

(** The body of the epoch loop, over the epochs still to run. *)
Fixpoint epoch_loop (args : Args) (todo : list Z)
    (train_set_loader valid_set_loader : Loader)
    (net : Net) (opt : optimizer) (sch : lr_scheduler) : M unit :=
  match todo with
  | [] => ret tt
  | epoch :: rest =>
      r <- train net epoch train_set_loader opt ;;
      let '(net, opt, train_loss) := r in
      r <- validate net valid_set_loader ;;
      let '(net, valid_loss, valid_acc) := r in
      r <- lr_scheduler_step sch opt valid_loss ;;
      let '(sch, opt) := r in
      checkpoint net (pth_dir args) epoch valid_loss ;;
      print (PrintText "") ;;
      (if visdom args
       then
         vis_line_call (VisLine LossWin epoch train_loss "append" "train") ;;
         vis_line_call (VisLine LossWin epoch valid_loss "append" "valid") ;;
         vis_line_call (VisLine AccWin epoch valid_acc "append" "valid")
       else ret tt) ;;
      epoch_loop args rest train_set_loader valid_set_loader net opt sch
  end.

Definition main (args : Args) : M unit :=
  print PrintArgs ;;
  seed (seed_arg args) ;;
  (if visdom args then setup_visdom (env args) ;; ret tt else ret tt) ;;
  device <- setup_device (cuda args) ;;
  train_set_loader <- get_dataset_loader (X_train args) (y_train args)
                        (batch_size args) (threads args) ;;
  valid_set_loader <- get_dataset_loader (X_valid args) (y_valid args)
                        (valid_batch_size args) (threads args) ;;
  net <- build_net (warm_start args) device ;;
  get_objective ;;
  optimizer <- get_optimizer net (lr args) (l2 args) ;;
  lr_scheduler <- get_lr_scheduler optimizer (patience args) ;;
  print (PrintText "") ;;
  print (PrintText "Training...") ;;
  epoch_loop args (epoch_range (epochs args)) train_set_loader
             valid_set_loader net optimizer lr_scheduler.

End Script.

(* ===================================================================== *)
(** ** The specification's wording of the metrics *)
(* ===================================================================== *)

Section Metrics.
Context `{Collaborators}.

(** Thresholding a probability at 0.5: above it the label is predicted. *)
Definition threshold_half (p : Q) : Q :=
  if Plateau.Qlt_bool (1 # 2) p then 1%Q else 0%Q.

(** The binary prediction vector of one sample: the logistic transform of
    each logit, thresholded. *)
Definition prediction (logits : list Q) : list Q :=
  map (fun x => threshold_half (sigmoid x)) logits.

(** Two vectors agree in every dimension. *)
Fixpoint vectors_equal (a b : list Q) : bool :=
  match a, b with
  | [], [] => true
  | x :: a', y :: b' => Qeq_bool x y && vectors_equal a' b'
  | _, _ => false
  end.

(** All-or-nothing match of one sample. *)
Definition exact_match (logits target_row : list Q) : bool :=
  vectors_equal target_row (prediction logits).

(** The number of samples of the batch that match. *)
Definition matching_samples (output target : Tensor) : nat :=
  length (List.filter (fun ot => exact_match (fst ot) (snd ot))
                      (zip output target)).

(** Exact-match accuracy: the fraction of the samples of the batch whose
    prediction vector is the target vector. *)
Definition exact_match_fraction (output target : Tensor) : Q :=
  (inject_Z (Z.of_nat (matching_samples output target))
   / inject_Z (Z.of_nat (length target)))%Q.

(** The arithmetic mean of a list of values. *)
Definition Qsum (l : list Q) : Q := fold_right Qplus 0%Q l.

Definition mean (l : list Q) : Q :=
  (Qsum l / inject_Z (Z.of_nat (length l)))%Q.

(** The objective values of the batches of a training pass, in processing
    order: each is computed with the parameters left by the updates of the
    batches before it. *)
Fixpoint batch_losses (batches : list (list Input * Tensor)) (net : Net)
    (opt : optimizer) : list Q :=
  match batches with
  | [] => []
  | data :: rest =>
      let loss := objective (net_call net (fst data)) (snd data) in
      let '(net', st) :=
        adam_step (opt_lr opt) (opt_weight_decay opt) (opt_state opt)
                  net (fst data) (snd data) in
      loss :: batch_losses rest net'
                (Optimizer (opt_lr opt) (opt_weight_decay opt) st)
  end.

(** The loss a call of [train] returns, if it returns. *)
Definition returned_loss (r : world * outcome (Net * optimizer * Q))
  : option Q :=
  match snd r with
  | Ret (_, _, train_loss) => Some train_loss
  | Raise _ => None
  end.

(** The paths of the checkpoints reported on the standard output, in
    order. *)
Fixpoint saved_paths (out : list event) : list string :=
  match out with
  | [] => []
  | PrintCheckpointSaved path :: rest => path :: saved_paths rest
  | _ :: rest => saved_paths rest
  end.

(** From [w] to [w'] no file was touched and no checkpoint was saved. *)
Definition no_checkpoint (w w' : world) : Prop :=
  fs w' = fs w
  /\ os_writable w' = os_writable w
  /\ saved_paths (stdout w') = saved_paths (stdout w).

(** A computation that touches no file and saves no checkpoint. *)
Definition quiet {A} (c : M A) : Prop :=
  forall w, no_checkpoint w (fst (c w)).

(** The path of the checkpoint of an epoch. *)
Definition checkpoint_path (pth_dir : string) (epoch : Z) (valid_loss : Q)
  : string :=
  os_path_join pth_dir (checkpoint_name epoch valid_loss).

(** Two worlds with the same files, the same permissions and the same
    accelerator: the same data on the same machine. *)
Definition same_setup (w1 w2 : world) : Prop :=
  fs w1 = fs w2
  /\ os_writable w1 = os_writable w2
  /\ cuda_is_available w1 = cuda_is_available w2.

(** Two worlds with the same setup and the same generator states. *)
Definition agree (w1 w2 : world) : Prop :=
  same_setup w1 w2
  /\ np_rng w1 = np_rng w2
  /\ torch_rng w1 = torch_rng w2.

(** From two worlds that agree, the computation prints the same lines,
    returns the same outcome and ends in two worlds that agree. *)
Definition deterministic {A} (c : M A) : Prop :=
  forall w1 w2,
    agree w1 w2 ->
    exists out,
      stdout (fst (c w1)) = stdout w1 ++ out
      /\ stdout (fst (c w2)) = stdout w2 ++ out
      /\ agree (fst (c w1)) (fst (c w2))
      /\ snd (c w1) = snd (c w2).

(** The training losses and the validation losses printed, epoch by
    epoch. *)
Fixpoint train_losses (out : list event) : list Q :=
  match out with
  | [] => []
  | PrintEpochCompleted _ train_loss :: rest => train_loss :: train_losses rest
  | _ :: rest => train_losses rest
  end.

Fixpoint valid_losses (out : list event) : list Q :=
  match out with
  | [] => []
  | PrintValid valid_loss _ :: rest => valid_loss :: valid_losses rest
  | _ :: rest => valid_losses rest
  end.


End Metrics.

(* ===================================================================== *)
(** ** A concrete set of collaborators *)
(* ===================================================================== *)

(** A one-weight linear classifier with one label, trained by gradient
    descent on the squared error; it instantiates the collaborators in the
    examples. *)
Module Toy.

Definition call (w : Q) (xs : list (list Q)) : Tensor :=
  map (fun x => [Qred (w * Qsum x)]) xs.

(** A rational squashing function with values in (0, 1) and value 1/2
    at 0. *)
Definition squash (x : Q) : Q :=
  Qred ((1 # 2) + x / ((2 # 1) * (1 + Qabs x))).

Definition row_error (o t : list Q) : Q :=
  Qsum (zip_with (fun a b => (a - b) * (a - b))%Q o t).

Definition squared_error (output target : Tensor) : Q :=
  Qred (Qsum (zip_with row_error output target)).

(** The gradient of the squared error in the weight. *)
Definition gradient (w : Q) (xs : list (list Q)) (target : Tensor) : Q :=
  Qsum (zip_with
          (fun x t => ((2 # 1) * (w * Qsum x - Qsum t) * Qsum x)%Q) xs target).

Definition descend (lr l2 : Q) (st : unit) (w : Q) (xs : list (list Q))
    (target : Tensor) : Q * unit :=
  (Qred (w - lr * (gradient w xs target + l2 * w)), st).

Fixpoint chunks {A} (fuel n : nat) (l : list A) : list (list A) :=
  match fuel, l with
  | O, _ | _, [] => []
  | S fuel', _ => firstn n l :: chunks fuel' n (skipn n l)
  end.

Definition batches (x y : list (list Q)) (bs threads : Z)
  : option (list (list (list Q) * Tensor)) :=
  if (length x =? length y)%nat && (0 <? bs)
  then Some (map (fun c => (map fst c, map snd c))
                 (chunks (length x) (Z.to_nat bs) (zip x y)))
  else None.

Fixpoint drop_zeros (l : list ascii) : list ascii :=
  match l with
  | "0"%char :: l' => drop_zeros l'
  | _ => l
  end.

Definition strip_zeros (s : string) : string :=
  match drop_zeros (rev (list_ascii_of_string s)) with
  | [] => "0"%string
  | r => string_of_list_ascii (rev r)
  end.

Definition pad4 (s : string) : string :=
  (string_of_list_ascii (repeat "0"%char (4 - String.length s)) ++ s)%string.

(** A decimal rendering of a float that has at most four decimals. *)
Definition render (x : Q) : string :=
  let z := round_half_even (x * 10000) in
  let a := Z.abs z in
  ((if (z <? 0)%Z then "-" else "") ++ str_int (a / 10000)%Z ++ "."
   ++ strip_zeros (pad4 (str_int (a mod 10000)%Z)))%string.

#[export] Instance collaborators : Collaborators := {|
  Net := Q;
  Input := list Q;
  OptState := unit;
  Rng := Z;
  Array := list (list Q);
  Loader := list (list (list Q) * Tensor);
  net_call := call;
  net_train := fun w => w;
  net_eval := fun w => w;
  net_to := fun _ w => w;
  net_init := fun r => (r + 1, 0%Q);
  sigmoid := squash;
  objective := squared_error;
  adam_init := fun _ => tt;
  adam_step := descend;
  rng_of_seed := fun s => s;
  make_loader := batches;
  loader_iter := fun l r => (r, l);
  str_float := render;
|}.

(** A machine without accelerator, an empty file system but for the four
    data files, every path writable. *)
Definition data : gmap string node :=
  <["./data/X_train.npy"%string := File (Npy [[1%Q]; [2%Q]; [3%Q]; [1%Q]])]>
  (<["./data/y_train.npy"%string := File (Npy [[1%Q]; [0%Q]; [1%Q]; [0%Q]])]>
  (<["./data/X_valid.npy"%string := File (Npy [[1%Q]; [(-1)%Q]])]>
  (<["./data/y_valid.npy"%string := File (Npy [[1%Q]; [0%Q]])]> ∅))).

Definition machine : world :=
  World data (fun _ => true) [] [] 0 0 false false true.

Definition args : Args := {|
  batch_size := 2;
  valid_batch_size := 2;
  epochs := 3;
  lr := 1 # 100;
  l2 := 0;
  patience := 5;
  warm_start := "";
  cuda := false;
  visdom := false;
  env := "NeuralSEA";
  X_train := "./data/X_train.npy";
  y_train := "./data/y_train.npy";
  X_valid := "./data/X_valid.npy";
  y_valid := "./data/y_valid.npy";
  threads := 4;
  pth_dir := "checkpoints";
  seed_arg := 42;
|}.

(** Two batches of one sample each, and an optimizer. *)
Definition b1 : list (list Q) * Tensor := ([[1%Q]], [[1%Q]]).
Definition b2 : list (list Q) * Tensor := ([[2%Q]], [[0%Q]]).
Definition opt0 : optimizer := Optimizer (1 # 10) 0 tt.

(** Seven validation losses, each lower than the one before by 0.0001 at
    most. *)
Definition slow_losses : list Q :=
  [10; 99999 # 10000; 99998 # 10000; 99997 # 10000; 99996 # 10000;
   99995 # 10000; 99994 # 10000]%Q.

(** Another process creates the checkpoint directory. *)
Definition creates_directory (dir : string) (w : world) : world :=
  set_fs (<[dir := Dir]> (fs w)) w.


(** The same machine and files, with other generator states and a line
    already printed. *)
Definition machine_later : world :=
  World data (fun _ => true) [PrintText "earlier"] [] 7 11 false true false.

End Toy.

(* ===================================================================== *)
(** ** Observations of a run *)
(* ===================================================================== *)

Section Observations.
Context `{Collaborators}.

(** The loss and the accuracy of one validation batch, as the loop of
    [validate] computes them. *)
Definition batch_loss (net : Net) (data : list Input * Tensor) : Q :=
  objective (net_call net (fst data)) (snd data).

Definition batch_acc (net : Net) (data : list Input * Tensor) : Q :=
  batch_accuracy (net_call net (fst data)) (snd data) (length (fst data)).

(** A batch as the loader yields it: at least one sample, one target row
    per sample, and an output of the shape of the target. *)
Definition well_formed_batch (net : Net) (data : list Input * Tensor)
  : Prop :=
  (0 < length (fst data))%nat
  /\ length (snd data) = length (fst data)
  /\ Forall2 (fun o t => length o = length t)
             (net_call net (fst data)) (snd data).

(** The batch numbers of the progress lines printed. *)
Fixpoint progress_indices (out : list event) : list Z :=
  match out with
  | [] => []
  | PrintProgress _ i _ _ :: rest => i :: progress_indices rest
  | _ :: rest => progress_indices rest
  end.

(** The lines that report the epochs: the training loss, the validation
    metrics and the checkpoint, in the order they were printed. *)
Fixpoint summary (out : list event) : list event :=
  match out with
  | [] => []
  | PrintEpochCompleted k l :: rest => PrintEpochCompleted k l :: summary rest
  | PrintValid l a :: rest => PrintValid l a :: summary rest
  | PrintCheckpointSaved p :: rest => PrintCheckpointSaved p :: summary rest
  | _ :: rest => summary rest
  end.

(** What one epoch reports. *)
Record epoch_report := EpochReport {
  rep_epoch : Z;
  rep_train_loss : Q;
  rep_valid_loss : Q;
  rep_valid_acc : Q;
}.

(** The lines of an epoch on the standard output, and its points on the
    visdom windows. *)
Definition report_lines (dir : string) (r : epoch_report) : list event :=
  [PrintEpochCompleted (rep_epoch r) (rep_train_loss r);
   PrintValid (rep_valid_loss r) (rep_valid_acc r);
   PrintCheckpointSaved
     (checkpoint_path dir (rep_epoch r) (rep_valid_loss r))].

Definition report_points (r : epoch_report) : list vis_line :=
  [VisLine LossWin (rep_epoch r) (rep_train_loss r) "append" "train";
   VisLine LossWin (rep_epoch r) (rep_valid_loss r) "append" "valid";
   VisLine AccWin (rep_epoch r) (rep_valid_acc r) "append" "valid"].

(** The three calls of [setup_visdom]. *)
Definition setup_points : list vis_line :=
  [VisLine LossWin 1 0 "" "train";
   VisLine LossWin 1 0 "new" "valid";
   VisLine AccWin 1 0 "" "valid"].

(** A computation that leaves an observation of the world as it is. *)
Definition preserves {X A} (obs : world -> X) (c : M A) : Prop :=
  forall w, obs (fst (c w)) = obs w.

(** A computation that changes the entry of no path outside [P], and
    removes no entry. *)
Definition confined {A} (P : string -> Prop) (c : M A) : Prop :=
  forall w,
    (forall p, ~ P p -> fs (fst (c w)) !! p = fs w !! p)
    /\ (forall p, is_Some (fs w !! p) -> is_Some (fs (fst (c w)) !! p)).

(** The paths a run with the directory [dir] and the epochs [todo] may
    write: the directory and the checkpoints of these epochs. *)
Definition checkpoint_paths (dir : string) (todo : list Z) (p : string)
  : Prop :=
  p = dir \/ exists k l, In k todo /\ p = checkpoint_path dir k l.



(** What a run reports and what it plots. *)
Definition reported (w : world) : list event * list vis_line :=
  (summary (stdout w), vis_calls w).



End Observations.

(* ===================================================================== *)
(** ** Further machines and command lines *)
(* ===================================================================== *)

Module Cases.



(** The command line of [Toy] with [--epochs 0]. *)
Definition args_no_epoch : Args := {|
  batch_size := 2;
  valid_batch_size := 2;
  epochs := 0;
  lr := 1 # 100;
  l2 := 0;
  patience := 5;
  warm_start := "";
  cuda := false;
  visdom := false;
  env := "NeuralSEA";
  X_train := "./data/X_train.npy";
  y_train := "./data/y_train.npy";
  X_valid := "./data/X_valid.npy";
  y_valid := "./data/y_valid.npy";
  threads := 4;
  pth_dir := "checkpoints";
  seed_arg := 42;
|}.

End Cases.

(* ===================================================================== *)
(** * Properties *)
(* ===================================================================== *)

Section NumFacts.

Lemma Qlt_bool_iff (a b : Q) : Plateau.Qlt_bool a b = true <-> (a < b)%Q.
Proof.
  unfold Plateau.Qlt_bool. rewrite negb_true_iff.
  split; intros Hab.
  - apply Qnot_le_lt. intros Hle. apply Qle_bool_iff in Hle. congruence.
  - destruct (Qle_bool b a) eqn:E; [|reflexivity].
    apply Qle_bool_iff in E. exfalso. exact (Qlt_not_le _ _ Hab E).
Qed.

Lemma Qfloor_unit (s : Q) : (0 <= s)%Q -> (s < 1)%Q -> Qfloor s = 0.
Proof.
  intros H0 H1.
  pose proof (Qfloor_le s) as Hlo. pose proof (Qlt_floor s) as Hhi.
  assert (Hlt : (inject_Z (Qfloor s) < inject_Z 1)%Q) by (eapply Qle_lt_trans; eauto).
  assert (Hgt : (inject_Z (-1) < inject_Z (Qfloor s))%Q).
  { apply Qle_lt_trans with (y := (s - 1)%Q).
    - change (inject_Z (-1)) with (-(1))%Q. lra.
    - rewrite inject_Z_plus in Hhi. change (inject_Z 1) with 1%Q in Hhi. lra. }
  rewrite <- Zlt_Qlt in Hlt, Hgt. lia.
Qed.

Lemma Qlt_bool_false_iff (a b : Q) : Plateau.Qlt_bool a b = false <-> (b <= a)%Q.
Proof.
  unfold Plateau.Qlt_bool. rewrite negb_false_iff. apply Qle_bool_iff.
Qed.

Lemma round_unit_interval (s : Q) :
  (0 <= s)%Q -> (s <= 1)%Q -> inject_Z (round_half_even s) = threshold_half s.
Proof.
  intros H0 H1. unfold round_half_even, threshold_half.
  destruct (Qlt_le_dec s 1) as [Hlt | Hge].
  - rewrite (Qfloor_unit s H0 Hlt).
    destruct (Qcompare_spec (s - inject_Z 0) (1 # 2)) as [E | E | E];
      change (inject_Z 0) with 0%Q in E.
    + simpl. destruct (Plateau.Qlt_bool (1 # 2) s) eqn:B; [|reflexivity].
      apply Qlt_bool_iff in B. lra.
    + destruct (Plateau.Qlt_bool (1 # 2) s) eqn:B; [|reflexivity].
      apply Qlt_bool_iff in B. lra.
    + destruct (Plateau.Qlt_bool (1 # 2) s) eqn:B; [reflexivity|].
      apply Qlt_bool_false_iff in B. lra.
  - assert (Hs : (s == 1)%Q) by lra.
    rewrite (Qfloor_comp _ _ Hs). change (Qfloor 1) with 1.
    destruct (Qcompare_spec (s - inject_Z 1) (1 # 2)) as [E | E | E];
      change (inject_Z 1) with 1%Q in E; try lra.
    destruct (Plateau.Qlt_bool (1 # 2) s) eqn:B; [reflexivity|].
    apply Qlt_bool_false_iff in B. lra.
Qed.

End NumFacts.

Section TensorFacts.

Lemma prod_b2z (row : list bool) :
  fold_right Z.mul 1 (map Z.b2z row) = Z.b2z (forallb (fun b => b) row).
Proof.
  induction row as [| b row IH]; [reflexivity|].
  cbn [map fold_right forallb]. rewrite IH.
  destruct b; cbn [andb Z.b2z]; lia.
Qed.

Lemma zip_with_Qeq_vectors_equal (a b : list Q) :
  length a = length b ->
  forallb (fun x => x) (zip_with Qeq_bool a b) = vectors_equal a b.
Proof.
  revert b. induction a as [| x a IH]; intros [| y b] Hlen;
    try discriminate; [reflexivity|].
  cbn [zip_with forallb vectors_equal]. f_equal. apply IH.
  simpl in Hlen. lia.
Qed.

Lemma sum_b2z_count (bs : list bool) :
  Torch.sum (map Z.b2z bs) = Z.of_nat (length (List.filter (fun b => b) bs)).
Proof.
  induction bs as [| b bs IH]; [reflexivity|].
  cbn [map Torch.sum fold_right]. fold (Torch.sum (map Z.b2z bs)). rewrite IH.
  destruct b; cbn [List.filter length Z.b2z]; lia.
Qed.

Lemma sum_b2z_filter {A} (f : A -> bool) (l : list A) :
  Torch.sum (map (fun a => Z.b2z (f a)) l)
  = Z.of_nat (length (List.filter f l)).
Proof.
  induction l as [| a l IH]; [reflexivity|].
  cbn [map Torch.sum fold_right List.filter].
  fold (Torch.sum (map (fun a => Z.b2z (f a)) l)). rewrite IH.
  destruct (f a); cbn [length Z.b2z]; lia.
Qed.

Lemma filter_length_le {A} (f : A -> bool) (l : list A) :
  (length (List.filter f l) <= length l)%nat.
Proof.
  induction l as [| a l IH]; [reflexivity|].
  cbn [List.filter]. destruct (f a); cbn [length]; lia.
Qed.

Lemma filter_length_all {A} (f : A -> bool) (l : list A) :
  length (List.filter f l) = length l <-> Forall (fun a => f a = true) l.
Proof.
  induction l as [| a l IH].
  - split; [constructor | reflexivity].
  - cbn [List.filter]. pose proof (filter_length_le f l) as Hle.
    destruct (f a) eqn:E; cbn [length]; split; intros Hx.
    + constructor; [exact E | apply IH; lia].
    + inversion Hx; subst. f_equal. apply IH. assumption.
    + lia.
    + inversion Hx; subst. congruence.
Qed.

Lemma Forall_zip_Forall2 {A B} (P : A -> B -> Prop) (l : list A) (k : list B) :
  length l = length k ->
  Forall (fun ab => P (fst ab) (snd ab)) (zip l k) <-> Forall2 P l k.
Proof.
  revert k. induction l as [| a l IH]; intros [| b k] Hlen; try discriminate.
  - split; constructor.
  - cbn [zip zip_with]. simpl in Hlen. split; intros Hx; inversion Hx; subst.
    + constructor; [assumption | apply IH; [lia | assumption]].
    + constructor; [assumption | apply IH; [lia | assumption]].
Qed.

Lemma vectors_equal_spec (a b : list Q) :
  vectors_equal a b = true <-> Forall2 Qeq a b.
Proof.
  revert b. induction a as [| x a IH]; intros [| y b]; cbn [vectors_equal].
  - split; constructor.
  - split; [discriminate | inversion 1].
  - split; [discriminate | inversion 1].
  - rewrite andb_true_iff, Qeq_bool_iff, IH.
    split; [intros [? ?]; constructor; assumption | inversion 1; auto].
Qed.

End TensorFacts.


Section Accuracy.
Context `{Collaborators}.
Hypothesis sigmoid_range : forall x, (0 <= sigmoid x)%Q /\ (sigmoid x <= 1)%Q.

Lemma round_sigmoid_prediction (logits : list Q) :
  map (fun x => inject_Z (round_half_even x)) (map sigmoid logits)
  = prediction logits.
Proof.
  unfold prediction. rewrite map_map. apply map_ext. intros x.
  apply round_unit_interval; apply sigmoid_range.
Qed.

Lemma prod_last_exact_match (output target : Tensor) :
  Forall2 (fun o t => length o = length t) output target ->
  Torch.prod_last
    (Torch.eq target (Torch.round (Torch.pointwise sigmoid output)))
  = map (fun ot => Z.b2z (exact_match (fst ot) (snd ot))) (zip output target).
Proof.
  induction 1 as [| o t output target Hrow Hrest IH]; [reflexivity|].
  unfold Torch.prod_last, Torch.eq, Torch.round, Torch.pointwise in *.
  cbn [map zip zip_with fst snd]. f_equal; [|exact IH].
  rewrite prod_b2z, round_sigmoid_prediction. unfold exact_match.
  f_equal. apply zip_with_Qeq_vectors_equal.
  unfold prediction. rewrite length_map. symmetry. exact Hrow.
Qed.

End Accuracy.

Section AccuracyMain.
Context `{Collaborators}.

Lemma batch_accuracy_count (output target : Tensor) (n : nat) :
  (forall x, (0 <= sigmoid x)%Q /\ (sigmoid x <= 1)%Q) ->
  Forall2 (fun o t => length o = length t) output target ->
  batch_accuracy output target n
  = (inject_Z (Z.of_nat (matching_samples output target))
     / inject_Z (Z.of_nat n))%Q.
Proof.
  intros Hs Hshape. unfold batch_accuracy, matching_samples.
  rewrite (prod_last_exact_match Hs output target Hshape).
  rewrite (sum_b2z_filter (fun ot => exact_match (fst ot) (snd ot))).
  reflexivity.
Qed.

Lemma Qdiv_nat_unit (m n : nat) :
  (0 < n)%nat -> (m <= n)%nat ->
  (0 <= inject_Z (Z.of_nat m) / inject_Z (Z.of_nat n))%Q
  /\ (inject_Z (Z.of_nat m) / inject_Z (Z.of_nat n) <= 1)%Q
  /\ ((inject_Z (Z.of_nat m) / inject_Z (Z.of_nat n) == 1)%Q <-> m = n).
Proof.
  intros Hn Hm.
  assert (Hpos : (0 < inject_Z (Z.of_nat n))%Q).
  { change 0%Q with (inject_Z 0). rewrite <- Zlt_Qlt. lia. }
  assert (Hm0 : (0 <= inject_Z (Z.of_nat m))%Q).
  { change 0%Q with (inject_Z 0). rewrite <- Zle_Qle. lia. }
  assert (Hmn : (inject_Z (Z.of_nat m) <= inject_Z (Z.of_nat n))%Q).
  { rewrite <- Zle_Qle. lia. }
  split; [|split].
  - apply Qle_shift_div_l; [exact Hpos |].
    rewrite Qmult_0_l. exact Hm0.
  - apply Qle_shift_div_r; [exact Hpos |].
    rewrite Qmult_1_l. exact Hmn.
  - split; intros E.
    + assert (E' : (inject_Z (Z.of_nat m) == inject_Z (Z.of_nat n))%Q).
      { rewrite <- (Qmult_1_l (inject_Z (Z.of_nat n))), <- E.
        field. intros E0. rewrite E0 in Hpos. exact (Qlt_irrefl _ Hpos). }
      rewrite inject_Z_injective in E'. lia.
    + subst m. field. intros E0. rewrite E0 in Hpos. exact (Qlt_irrefl _ Hpos).
Qed.

(** C1.  For every validation batch with at least one sample, the accuracy
    the validation step computes for the batch is the fraction of the
    samples whose prediction vector (the logistic transform of the output,
    thresholded at 0.5) is the target vector in every label dimension; so
    it lies between 0 and 1, and it is 1 exactly when every sample matches
    its target in all dimensions.  The logistic function has its values
    between 0 and 1, and the output and the target have one shape. *)
Theorem validate_batch_accuracy_exact_match
    (output target : Tensor) (n : nat) :
  (forall x, (0 <= sigmoid x)%Q /\ (sigmoid x <= 1)%Q) ->
  (0 < n)%nat ->
  length target = n ->
  Forall2 (fun o t => length o = length t) output target ->
  batch_accuracy output target n = exact_match_fraction output target
  /\ (0 <= batch_accuracy output target n)%Q
  /\ (batch_accuracy output target n <= 1)%Q
  /\ ((batch_accuracy output target n == 1)%Q <->
      Forall2 (fun o t => Forall2 Qeq t (prediction o)) output target).
Proof.
  intros Hs Hn Hlen Hshape.
  pose proof (Forall2_length _ _ _ Hshape) as Hrows.
  rewrite (batch_accuracy_count output target n Hs Hshape).
  assert (Hzip : length (zip output target) = n).
  { rewrite length_zip_with. lia. }
  assert (Hle : (matching_samples output target <= n)%nat).
  { unfold matching_samples. rewrite <- Hzip. apply filter_length_le. }
  destruct (Qdiv_nat_unit (matching_samples output target) n Hn Hle)
    as (H0 & H1 & Hone).
  split; [unfold exact_match_fraction; rewrite Hlen; reflexivity|].
  split; [exact H0|]. split; [exact H1|].
  rewrite Hone. unfold matching_samples. rewrite <- Hzip at 1.
  rewrite filter_length_all.
  rewrite (Forall_zip_Forall2 (fun o t => exact_match o t = true))
    by congruence.
  split; intros HF; (eapply Forall2_impl; [exact HF|]); intros o t;
    unfold exact_match; apply vectors_equal_spec.
Qed.

End AccuracyMain.

Lemma squash_range (x : Q) : (0 <= Toy.squash x)%Q /\ (Toy.squash x <= 1)%Q.
Proof.
  unfold Toy.squash. rewrite Qred_correct.
  assert (Ha : (0 <= Qabs x)%Q) by apply Qabs_nonneg.
  assert (Hup : (x <= Qabs x)%Q) by apply Qle_Qabs.
  assert (Hlo : (- Qabs x <= x)%Q).
  { rewrite <- (Qopp_involutive x) at 2. apply Qopp_le_compat.
    rewrite <- Qabs_opp. apply Qle_Qabs. }
  set (a := Qabs x) in *.
  assert (Hd : (0 < (2 # 1) * (1 + a))%Q) by lra.
  assert (H1 : (-(1 # 2) <= x / ((2 # 1) * (1 + a)))%Q).
  { apply Qle_shift_div_l; [exact Hd | lra]. }
  assert (H2 : (x / ((2 # 1) * (1 + a)) <= 1 # 2)%Q).
  { apply Qle_shift_div_r; [exact Hd | lra]. }
  split; lra.
Qed.

Lemma validate_batch_accuracy_exact_match_witness :
  @batch_accuracy Toy.collaborators [[2%Q]; [(-1)%Q]] [[1%Q]; [0%Q]] 2
  = @exact_match_fraction Toy.collaborators [[2%Q]; [(-1)%Q]] [[1%Q]; [0%Q]]
  /\ (0 <= @batch_accuracy Toy.collaborators
             [[2%Q]; [(-1)%Q]] [[1%Q]; [0%Q]] 2)%Q
  /\ (@batch_accuracy Toy.collaborators
        [[2%Q]; [(-1)%Q]] [[1%Q]; [0%Q]] 2 <= 1)%Q
  /\ ((@batch_accuracy Toy.collaborators
         [[2%Q]; [(-1)%Q]] [[1%Q]; [0%Q]] 2 == 1)%Q <->
      Forall2 (fun o t => Forall2 Qeq t (@prediction Toy.collaborators o))
              [[2%Q]; [(-1)%Q]] [[1%Q]; [0%Q]]).
Proof.
  apply (@validate_batch_accuracy_exact_match Toy.collaborators
           [[2%Q]; [(-1)%Q]] [[1%Q]; [0%Q]] 2 squash_range).
  - lia.
  - reflexivity.
  - repeat constructor.
Defined.

Section RoundFacts.

Lemma round_half_even_comp (x y : Q) :
  (x == y)%Q -> round_half_even x = round_half_even y.
Proof.
  intros E. unfold round_half_even.
  rewrite (Qfloor_comp x y E).
  assert (E' : (x - inject_Z (Qfloor y) == y - inject_Z (Qfloor y))%Q)
    by (rewrite E; reflexivity).
  rewrite (Qcompare_comp _ _ E' (1 # 2) (1 # 2) (Qeq_refl _)).
  reflexivity.
Qed.

Lemma py_round_comp (x y : Q) (nd : nat) :
  (x == y)%Q -> py_round x nd = py_round y nd.
Proof.
  intros E. unfold py_round. f_equal.
  apply round_half_even_comp. rewrite E. reflexivity.
Qed.

Lemma Qsum_app (l k : list Q) : (Qsum (l ++ k) == Qsum l + Qsum k)%Q.
Proof.
  induction l as [| x l IH]; cbn [Qsum app fold_right].
  - fold (Qsum k). lra.
  - fold (Qsum (l ++ k)) (Qsum l). rewrite IH. lra.
Qed.

Lemma Qsum_permutation (l k : list Q) :
  Permutation l k -> (Qsum l == Qsum k)%Q.
Proof.
  induction 1 as [| x l k _ IH | x y l | l k m _ IH1 _ IH2];
    cbn [Qsum fold_right].
  - reflexivity.
  - fold (Qsum l) (Qsum k). rewrite IH. reflexivity.
  - fold (Qsum l). lra.
  - rewrite IH1. exact IH2.
Qed.

Lemma mean_permutation (l k : list Q) :
  Permutation l k -> (mean l == mean k)%Q.
Proof.
  intros P. unfold mean.
  rewrite (Qsum_permutation l k P), (Permutation_length P). reflexivity.
Qed.

End RoundFacts.

Section ScriptFacts.
Context `{Collaborators}.

Lemma saved_paths_app (a b : list event) :
  saved_paths (a ++ b) = saved_paths a ++ saved_paths b.
Proof.
  induction a as [| e a IH]; [reflexivity|].
  destruct e; cbn [app saved_paths]; rewrite IH; reflexivity.
Qed.

Lemma no_checkpoint_refl w : no_checkpoint w w.
Proof. repeat split. Qed.

Lemma no_checkpoint_trans w1 w2 w3 :
  no_checkpoint w1 w2 -> no_checkpoint w2 w3 -> no_checkpoint w1 w3.
Proof. intros (? & ? & ?) (? & ? & ?). repeat split; congruence. Qed.

Lemma quiet_ret {A} (a : A) : quiet (ret a).
Proof. intros w. apply no_checkpoint_refl. Qed.

Lemma quiet_raise {A} (e : exn) : quiet (@raise _ A e).
Proof. intros w. apply no_checkpoint_refl. Qed.

Lemma quiet_bind {A B} (c : M A) (k : A -> M B) :
  quiet c -> (forall a, quiet (k a)) -> quiet (bind c k).
Proof.
  intros Hc Hk w. unfold bind. specialize (Hc w).
  destruct (c w) as [w1 [a | e]]; cbn [fst] in *; [|exact Hc].
  eapply no_checkpoint_trans; [exact Hc | apply Hk].
Qed.

Lemma quiet_print (e : event) :
  saved_paths [e] = [] -> quiet (print e).
Proof.
  intros He w. unfold print, no_checkpoint. cbn [fst fs os_writable stdout].
  rewrite saved_paths_app, He, app_nil_r. repeat split.
Qed.

Lemma quiet_if {A} (b : bool) (c1 c2 : M A) :
  quiet c1 -> quiet c2 -> quiet (if b then c1 else c2).
Proof. destruct b; auto. Qed.

Lemma quiet_vis_line_call l : quiet (vis_line_call l).
Proof. intros w. repeat split. Qed.

Lemma quiet_iterate loader : quiet (iterate loader).
Proof.
  intros w. unfold iterate.
  destruct (loader_iter loader (torch_rng w)) as [r batches].
  repeat split.
Qed.

Lemma quiet_float_div_int a n : quiet (float_div_int a n).
Proof.
  unfold float_div_int. apply quiet_if; [apply quiet_raise | apply quiet_ret].
Qed.

Lemma quiet_train_loop (batches : list (list Input * Tensor)) :
  forall epoch len i net opt acc,
    quiet (train_loop epoch len i batches net opt acc).
Proof.
  induction batches as [| data rest IH]; intros epoch len i net opt acc;
    cbn [train_loop]; [apply quiet_ret|].
  destruct (adam_step (opt_lr opt) (opt_weight_decay opt) (opt_state opt)
              net (fst data) (snd data)) as [net1 st1].
  apply quiet_bind; [|intros _; apply IH].
  apply quiet_if; [apply quiet_print; reflexivity | apply quiet_ret].
Qed.

Lemma quiet_train net epoch loader opt : quiet (train net epoch loader opt).
Proof.
  unfold train. apply quiet_bind; [apply quiet_iterate|]. intros batches.
  apply quiet_bind; [apply quiet_train_loop|]. intros [[net1 opt1] loss].
  apply quiet_bind; [apply quiet_float_div_int|]. intros mean.
  apply quiet_bind; [apply quiet_print; reflexivity|]. intros _.
  apply quiet_ret.
Qed.

Lemma quiet_validate net loader : quiet (validate net loader).
Proof.
  unfold validate. apply quiet_bind; [apply quiet_iterate|]. intros batches.
  destruct (validate_loop batches (net_eval net) 0%Q 0%Q) as [avg_loss avg_acc].
  apply quiet_bind; [apply quiet_float_div_int|]. intros mean_loss.
  apply quiet_bind; [apply quiet_float_div_int|]. intros mean_acc.
  apply quiet_bind; [apply quiet_print; reflexivity|]. intros _.
  apply quiet_ret.
Qed.

Lemma quiet_lr_scheduler_step sch opt metrics :
  quiet (lr_scheduler_step sch opt metrics).
Proof.
  unfold lr_scheduler_step.
  destruct (Plateau.step _ _ _ _) as [s reduced].
  apply quiet_bind; [|intros _; apply quiet_ret].
  apply quiet_if; [apply quiet_print; reflexivity | apply quiet_ret].
Qed.

Lemma length_batch_losses (batches : list (list Input * Tensor)) :
  forall net opt, length (batch_losses batches net opt) = length batches.
Proof.
  induction batches as [| data rest IH]; intros net opt; [reflexivity|].
  cbn [batch_losses].
  destruct (adam_step (opt_lr opt) (opt_weight_decay opt) (opt_state opt)
              net (fst data) (snd data)) as [net1 st1].
  cbn [length]. rewrite IH. reflexivity.
Qed.

(** The loop of [train] ends, with the sum of the batch losses, and leaves
    the learning rate as it was. *)
Lemma train_loop_spec (batches : list (list Input * Tensor)) :
  forall epoch len i net opt acc w,
  exists w' net' opt' acc',
    train_loop epoch len i batches net opt acc w = (w', Ret (net', opt', acc'))
    /\ (acc' == acc + Qsum (batch_losses batches net opt))%Q
    /\ opt_lr opt' = opt_lr opt.
Proof.
  induction batches as [| data rest IH]; intros epoch len i net opt acc w.
  - exists w, net, opt, acc. cbn [train_loop batch_losses Qsum fold_right].
    split; [reflexivity|]. split; [lra | reflexivity].
  - cbn [train_loop batch_losses].
    destruct (adam_step (opt_lr opt) (opt_weight_decay opt) (opt_state opt)
                net (fst data) (snd data)) as [net1 st1].
    set (loss := objective (net_call net (fst data)) (snd data)).
    set (opt1 := Optimizer (opt_lr opt) (opt_weight_decay opt) st1).
    unfold bind at 1.
    destruct (i mod 10000 =? 0); cbn [print ret];
      (match goal with
       | |- context [train_loop ?e ?l ?k ?r ?n ?o ?a ?w1] =>
           destruct (IH e l k n o a w1)
             as (w' & net' & opt' & acc' & E & Hacc & Hlr)
       end);
      exists w', net', opt', acc'; rewrite E;
      (split; [reflexivity|]; split; [|exact Hlr]);
      cbn [Qsum fold_right]; fold (Qsum (batch_losses rest net1 opt1));
      rewrite Hacc; lra.
Qed.

Lemma float_div_int_nonzero (a : Q) (n : Z) (w : world) :
  n <> 0 -> float_div_int a n w = (w, Ret (a / inject_Z n)%Q).
Proof.
  intros Hn. unfold float_div_int.
  destruct (n =? 0) eqn:E; [apply Z.eqb_eq in E; contradiction | reflexivity].
Qed.

Lemma length_nonzero {A} (l : list A) : l <> [] -> Z.of_nat (length l) <> 0.
Proof. destruct l; [congruence | simpl; lia]. Qed.

(** On a loader that yields a batch, [train] returns the rounded mean of
    the batch losses. *)
Lemma train_spec net epoch loader opt w :
  snd (loader_iter loader (torch_rng w)) <> [] ->
  exists w' net' opt',
    train net epoch loader opt w
    = (w', Ret (net', opt',
                py_round
                  (mean (batch_losses (snd (loader_iter loader (torch_rng w)))
                                      (net_train net) opt)) 4))
    /\ opt_lr opt' = opt_lr opt.
Proof.
  intros Hne. unfold train, iterate. unfold bind at 1.
  destruct (loader_iter loader (torch_rng w)) as [r batches] eqn:Eit.
  cbn [snd] in *.
  unfold bind at 1.
  destruct (train_loop_spec batches epoch (Z.of_nat (length batches)) 1
              (net_train net) opt 0%Q (set_torch_rng r w))
    as (w1 & net1 & opt1 & acc1 & E & Hacc & Hlr).
  rewrite E. unfold bind at 1.
  rewrite float_div_int_nonzero by (apply length_nonzero; exact Hne).
  unfold bind. cbn [print]. unfold ret.
  assert (Er : py_round (acc1 / inject_Z (Z.of_nat (length batches))) 4
               = py_round (mean (batch_losses batches (net_train net) opt)) 4).
  { apply py_round_comp. unfold mean.
    rewrite Hacc, Qplus_0_l, length_batch_losses. reflexivity. }
  rewrite Er.
  eexists _, net1, opt1. split; [reflexivity | exact Hlr].
Qed.

Lemma train_empty net epoch loader opt w :
  snd (loader_iter loader (torch_rng w)) = [] ->
  snd (train net epoch loader opt w) = Raise ZeroDivisionError.
Proof.
  intros He. unfold train, iterate. unfold bind at 1.
  destruct (loader_iter loader (torch_rng w)) as [r batches].
  cbn [fst snd] in *. subst batches. reflexivity.
Qed.

Lemma validate_empty net loader w :
  snd (loader_iter loader (torch_rng w)) = [] ->
  snd (validate net loader w) = Raise ZeroDivisionError.
Proof.
  intros He. unfold validate, iterate. unfold bind at 1.
  destruct (loader_iter loader (torch_rng w)) as [r batches].
  cbn [fst snd] in *. subst batches. reflexivity.
Qed.

(** On a loader that yields a batch, [validate] returns the network in
    evaluation mode and two means rounded to four decimals. *)
Lemma validate_spec net loader w :
  snd (loader_iter loader (torch_rng w)) <> [] ->
  exists w' raw_loss raw_acc,
    validate net loader w
    = (w', Ret (net_eval net, py_round raw_loss 4, py_round raw_acc 4)).
Proof.
  intros Hne. unfold validate, iterate. unfold bind at 1.
  destruct (loader_iter loader (torch_rng w)) as [r batches].
  cbn [snd] in Hne.
  destruct (validate_loop batches (net_eval net) 0%Q 0%Q) as [avg_loss avg_acc].
  unfold bind at 1.
  rewrite float_div_int_nonzero by (apply length_nonzero; exact Hne).
  unfold bind at 1.
  rewrite float_div_int_nonzero by (apply length_nonzero; exact Hne).
  unfold bind. cbn [print]. unfold ret.
  eexists _, _, _. reflexivity.
Qed.

(** C2, amended.  On a loader that yields at least one batch, [train]
    returns the arithmetic mean of the objective values of the batches,
    each computed with the parameters in effect when its batch is
    processed, rounded to 4 decimals; and the rounded mean of these values
    is the same in whatever order they are summed. *)
Theorem train_returns_rounded_mean net epoch loader opt w :
  let batches := snd (loader_iter loader (torch_rng w)) in
  let losses := batch_losses batches (net_train net) opt in
  batches <> [] ->
  returned_loss (train net epoch loader opt w) = Some (py_round (mean losses) 4)
  /\ forall order,
       Permutation losses order ->
       py_round (mean order) 4 = py_round (mean losses) 4.
Proof.
  intros batches losses Hne. split.
  - destruct (train_spec net epoch loader opt w Hne)
      as (w' & net' & opt' & E & _).
    rewrite E. reflexivity.
  - intros order P. apply py_round_comp. symmetry.
    apply mean_permutation. exact P.
Qed.

(** C10.  On a loader that yields no batch, [train] and [validate] both
    end in a division by zero; each returns a value exactly when the loader
    yields at least one batch. *)
Theorem empty_loader_division_by_zero net epoch loader opt w :
  let batches := snd (loader_iter loader (torch_rng w)) in
  (batches = [] ->
   snd (train net epoch loader opt w) = Raise ZeroDivisionError
   /\ snd (validate net loader w) = Raise ZeroDivisionError)
  /\ ((exists r, snd (train net epoch loader opt w) = Ret r) <-> batches <> [])
  /\ ((exists r, snd (validate net loader w) = Ret r) <-> batches <> []).
Proof.
  intros batches. split; [|split].
  - intros He. split; [apply train_empty | apply validate_empty]; exact He.
  - split.
    + intros [r Hr] He. rewrite (train_empty _ _ _ _ _ He) in Hr. discriminate.
    + intros Hne.
      destruct (train_spec net epoch loader opt w Hne)
        as (w' & net' & opt' & E & _).
      rewrite E. eexists. reflexivity.
  - split.
    + intros [r Hr] He. rewrite (validate_empty _ _ _ He) in Hr. discriminate.
    + intros Hne.
      destruct (validate_spec net loader w Hne) as (w' & l & a & E).
      rewrite E. eexists. reflexivity.
Qed.

End ScriptFacts.

Module PlateauFacts.
Import Plateau.

Lemma step_better patience threshold s L :
  is_better threshold L (best_loss s) = true ->
  step patience threshold s L = (State (current_rate s) (Some L) 0, false).
Proof. intros Hb. unfold step. rewrite Hb. reflexivity. Qed.

Lemma improving_run patience threshold losses :
  forall k s,
    improving threshold (best_loss s) losses ->
    reductions patience threshold k s losses = []
    /\ rates patience threshold s losses
       = repeat (current_rate s) (S (length losses))
    /\ current_rate (run patience threshold s losses) = current_rate s
    /\ (losses <> [] ->
        wait_counter (run patience threshold s losses) = 0
        /\ best_loss (run patience threshold s losses) = last losses).
Proof.
  induction losses as [| L rest IH]; intros k s Himp.
  - do 3 (split; [reflexivity|]). intros Hn. contradiction.
  - destruct Himp as [Hb Hrest].
    cbn [reductions rates run fold_left].
    rewrite (step_better patience threshold s L Hb). cbn [fst].
    destruct (IH (k + 1) (State (current_rate s) (Some L) 0) Hrest)
      as (Hred & Hrates & Hrate & Hlast).
    fold (run patience threshold (State (current_rate s) (Some L) 0) rest).
    split; [rewrite Hred; reflexivity|].
    split; [rewrite Hrates; reflexivity|].
    split; [rewrite Hrate; reflexivity|].
    intros _. destruct rest as [| L' rest']; [split; reflexivity|].
    destruct Hlast as [Hw Hl]; [discriminate|].
    rewrite Hw, Hl. split; reflexivity.
Qed.

Lemma improving_firstn threshold losses :
  forall best n,
    improving threshold best losses ->
    improving threshold best (firstn n losses).
Proof.
  induction losses as [| L rest IH]; intros best [| n] Himp;
    cbn [firstn improving]; try exact I.
  destruct Himp as [Hb Hrest]. split; [exact Hb | apply IH; exact Hrest].
Qed.

Lemma strictly_decreasing_improving losses :
  forall best,
    match best, losses with
    | Some b, L :: _ => (L < b)%Q
    | _, _ => True
    end ->
    strictly_decreasing losses ->
    improving 0 best losses.
Proof.
  induction losses as [| L rest IH]; intros best Hhead Hdec; [exact I|].
  cbn [improving]. split.
  - destruct best as [b|]; [|reflexivity].
    cbn [is_better]. apply Qlt_bool_iff. lra.
  - apply IH.
    + destruct rest as [| L' rest']; [exact I|]. apply Hdec.
    + destruct rest as [| L' rest']; [exact I|]. apply Hdec.
Qed.

(** C3, amended.  For every sequence of validation losses each of which is
    lower than the one before by more than the threshold, relative to that
    loss, the scheduler never changes the learning rate: no reduction is
    triggered, the rate in effect at every epoch is the initial one, and
    after every epoch the wait counter is 0. *)
Theorem improving_losses_keep_rate patience threshold rate losses :
  improving threshold None losses ->
  reductions patience threshold 1 (init rate) losses = []
  /\ rates patience threshold (init rate) losses
     = repeat rate (S (length losses))
  /\ forall n,
       current_rate (run patience threshold (init rate) (firstn n losses))
       = rate
       /\ wait_counter (run patience threshold (init rate) (firstn n losses))
          = 0.
Proof.
  intros Himp.
  destruct (improving_run patience threshold losses 1 (init rate) Himp)
    as (Hred & Hrates & _ & _).
  split; [exact Hred|]. split; [exact Hrates|].
  intros n.
  destruct (improving_run patience threshold (firstn n losses) 1 (init rate)
              (improving_firstn threshold losses None n Himp))
    as (_ & _ & Hrate & Hwait).
  split; [exact Hrate|].
  destruct (firstn n losses) as [| L rest] eqn:E; [reflexivity|].
  apply Hwait. discriminate.
Qed.

Lemma improving_losses_keep_rate_witness :
  reductions 5 default_threshold 1 (init (5 # 10000)) [1; 9 # 10; 8 # 10]%Q = []
  /\ rates 5 default_threshold (init (5 # 10000)) [1; 9 # 10; 8 # 10]%Q
     = repeat (5 # 10000)%Q 4
  /\ forall n,
       current_rate (run 5 default_threshold (init (5 # 10000))
                         (firstn n [1; 9 # 10; 8 # 10]%Q))
       = (5 # 10000)%Q
       /\ wait_counter (run 5 default_threshold (init (5 # 10000))
                            (firstn n [1; 9 # 10; 8 # 10]%Q))
          = 0.
Proof.
  apply (improving_losses_keep_rate 5 default_threshold (5 # 10000)
           [1; 9 # 10; 8 # 10]%Q).
  cbn. repeat split; reflexivity.
Defined.

(** With no threshold, every strictly decreasing sequence keeps the
    rate. *)
Lemma strictly_decreasing_keeps_rate_without_threshold patience rate losses :
  strictly_decreasing losses ->
  reductions patience 0 1 (init rate) losses = []
  /\ current_rate (run patience 0 (init rate) losses) = rate.
Proof.
  intros Hdec.
  destruct (improving_run patience 0 losses 1 (init rate)
              (strictly_decreasing_improving losses None I Hdec))
    as (Hred & _ & Hrate & _).
  split; assumption.
Qed.

Lemma step_rate_le patience threshold s L :
  (0 <= current_rate s)%Q ->
  (0 <= current_rate (fst (step patience threshold s L)))%Q
  /\ (current_rate (fst (step patience threshold s L)) <= current_rate s)%Q.
Proof.
  intros H0. unfold step.
  destruct (is_better threshold L (best_loss s)); cbn [fst current_rate].
  - split; [exact H0 | apply Qle_refl].
  - destruct (patience <? wait_counter s + 1); cbn [fst current_rate].
    + unfold factor. split; lra.
    + split; [exact H0 | apply Qle_refl].
Qed.

Lemma rates_bounded patience threshold losses :
  forall s r,
    (0 <= current_rate s)%Q ->
    In r (rates patience threshold s losses) ->
    (0 <= r)%Q /\ (r <= current_rate s)%Q.
Proof.
  induction losses as [| L rest IH]; intros s r H0 Hin; cbn [rates] in Hin.
  - destruct Hin as [<- | []]. split; [exact H0 | apply Qle_refl].
  - destruct Hin as [<- | Hin]; [split; [exact H0 | apply Qle_refl]|].
    destruct (step_rate_le patience threshold s L H0) as [H1 H2].
    destruct (IH _ r H1 Hin) as [H3 H4].
    split; [exact H3 | lra].
Qed.

(** C5.  From a learning rate that is not negative, the rate in effect at
    a later epoch is at most the rate in effect at an earlier one. *)
Theorem learning_rate_non_increasing patience threshold s losses i j ri rj :
  (0 <= current_rate s)%Q ->
  (i < j)%nat ->
  nth_error (rates patience threshold s losses) i = Some ri ->
  nth_error (rates patience threshold s losses) j = Some rj ->
  (rj <= ri)%Q.
Proof.
  revert s i j. induction losses as [| L rest IH]; intros s i j H0 Hij Hi Hj.
  - cbn [rates] in Hi, Hj. destruct j as [| j]; [lia|].
    destruct j; discriminate.
  - cbn [rates] in Hi, Hj. destruct j as [| j]; [lia|]. cbn [nth_error] in Hj.
    destruct (step_rate_le patience threshold s L H0) as [H1 H2].
    destruct i as [| i]; cbn [nth_error] in Hi.
    + injection Hi as <-.
      destruct (rates_bounded patience threshold rest _ rj H1
                  (nth_error_In _ _ Hj)) as [_ Hb].
      lra.
    + apply (IH _ i j H1); [lia | assumption | assumption].
Qed.

(** C4.  On an epoch whose loss is not an improvement the scheduler
    increments its wait counter; when the counter then exceeds the patience
    it multiplies the rate by 0.1 and resets the counter to 0, otherwise it
    keeps the rate.  With a patience of 2 and the losses 1.0, 0.9, 0.95,
    0.96, 0.97 the one reduction is on epoch 5, the counters after the
    epochs being 0, 0, 1, 2, 0. *)
Theorem plateau_step_without_improvement patience threshold s L :
  is_better threshold L (best_loss s) = false ->
  (patience < wait_counter s + 1 ->
   step patience threshold s L
   = (State (current_rate s * (1 # 10)) (best_loss s) 0, true))
  /\ (wait_counter s + 1 <= patience ->
      step patience threshold s L
      = (State (current_rate s) (best_loss s) (wait_counter s + 1), false))
  /\ (forall rate,
        reductions 2 default_threshold 1 (init rate)
          [1; 9 # 10; 95 # 100; 96 # 100; 97 # 100]%Q = [5]
        /\ rates 2 default_threshold (init rate)
             [1; 9 # 10; 95 # 100; 96 # 100; 97 # 100]%Q
           = [rate; rate; rate; rate; rate; rate * (1 # 10)]%Q
        /\ map wait_counter
             (states_after 2 default_threshold (init rate)
                [1; 9 # 10; 95 # 100; 96 # 100; 97 # 100]%Q
                [1; 2; 3; 4; 5]%nat)
           = [0; 0; 1; 2; 0]).
Proof.
  intros Hb. unfold step. rewrite Hb. split; [|split].
  - intros Hlt. apply Z.ltb_lt in Hlt. rewrite Hlt. reflexivity.
  - intros Hle. apply Z.ltb_ge in Hle. rewrite Hle. reflexivity.
  - intros rate. split; [|split]; reflexivity.
Qed.

(** C3, as stated, fails: seven losses, each lower than the one before,
    from 10 down to 9.9994; with the patience 5 and the threshold 1e-4 none
    after the first is an improvement, and the rate is reduced on
    epoch 7. *)
Lemma strictly_decreasing_losses_reduce_rate :
  strictly_decreasing Toy.slow_losses
  /\ reductions 5 default_threshold 1 (init (5 # 10000)) Toy.slow_losses = [7]
  /\ rates 5 default_threshold (init (5 # 10000)) Toy.slow_losses
     = [5 # 10000; 5 # 10000; 5 # 10000; 5 # 10000; 5 # 10000; 5 # 10000;
        5 # 10000; (5 # 10000) * (1 # 10)]%Q.
Proof.
  split; [|split].
  - cbn. repeat split; reflexivity.
  - vm_compute. reflexivity.
  - vm_compute. reflexivity.
Qed.

End PlateauFacts.

Section StringFacts.

Lemma append_cons (x : ascii) (a b : string) :
  (String x a ++ b)%string = String x (a ++ b)%string.
Proof. reflexivity. Qed.



Lemma length_append (a b : string) :
  String.length (a ++ b)%string = (String.length a + String.length b)%nat.
Proof.
  induction a as [| x a IH]; [reflexivity|].
  rewrite append_cons. cbn [String.length]. rewrite IH. reflexivity.
Qed.




End StringFacts.

Section CheckpointFacts.
Context `{Collaborators}.


(** The path of a checkpoint is the directory, a separator if it needs
    one, and the name. *)
Lemma os_path_join_checkpoint_name (dir : string) :
  exists pre : string,
    (pre = dir \/ pre = (dir ++ "/")%string)
    /\ forall k l,
         os_path_join dir (checkpoint_name k l)
         = (pre ++ checkpoint_name k l)%string.
Proof.
  unfold os_path_join.
  destruct (String.eqb dir "" || String.eqb (substring (String.length dir - 1) 1 dir) "/")%bool.
  - exists dir. split; [left; reflexivity|]. intros k l. reflexivity.
  - exists (dir ++ "/")%string. split; [right; reflexivity|]. intros k l.
    change (checkpoint_name k l)
      with (String "n" ("euralsea-epoch-" ++ str_int k ++ "-loss-"
                        ++ str_float l ++ ".pth"))%string.
    cbv beta iota. clear. induction dir as [| x dir IH]; [reflexivity|].
    rewrite !append_cons. f_equal. exact IH.
Qed.


Lemma checkpoint_path_not_dir (dir : string) (k : Z) (l : Q) :
  os_path_join dir (checkpoint_name k l) <> dir.
Proof.
  destruct (os_path_join_checkpoint_name dir) as (pre & Hpre & Hj).
  rewrite Hj. intros E. apply (f_equal String.length) in E.
  change (checkpoint_name k l)
    with (String "n" ("euralsea-epoch-" ++ str_int k ++ "-loss-"
                      ++ str_float l ++ ".pth"))%string in E.
  destruct Hpre as [-> | ->]; rewrite !length_append in E;
    cbn [String.length] in E; lia.
Qed.

End CheckpointFacts.

Section CheckpointRun.
Context `{Collaborators}.

Lemma os_path_exists_spec (p : string) (w : world) :
  os_path_exists p w
  = (w, Ret (match fs w !! p with Some _ => true | None => false end)).
Proof. unfold os_path_exists. destruct (fs w !! p); reflexivity. Qed.

(** A successful [torch.save] writes the file and nothing else. *)
Lemma torch_save_ret net path w w' :
  torch_save net path w = (w', Ret tt) ->
  w' = set_fs (<[path := File (Pth net)]> (fs w)) w.
Proof.
  unfold torch_save. intros E.
  destruct (fs w !! path) as [[| c] |]; try discriminate E;
    destruct (os_writable w path); try discriminate E;
    injection E as <-; reflexivity.
Qed.

(** A successful [os.mkdir] creates an entry that was not there. *)
Lemma os_mkdir_ret p w w' :
  os_mkdir p w = (w', Ret tt) ->
  fs w !! p = None /\ w' = set_fs (<[p := Dir]> (fs w)) w.
Proof.
  unfold os_mkdir. intros E.
  destruct (fs w !! p); [discriminate E|].
  destruct (os_writable w p); [|discriminate E].
  injection E as <-. split; reflexivity.
Qed.

Lemma checkpoint_ret net dir k l w w' :
  checkpoint net dir k l w = (w', Ret tt) ->
  fs w' !! checkpoint_path dir k l = Some (File (Pth net))
  /\ saved_paths (stdout w')
     = saved_paths (stdout w) ++ [checkpoint_path dir k l]
  /\ os_writable w' = os_writable w
  /\ (forall p v,
        p <> checkpoint_path dir k l ->
        fs w !! p = Some v -> fs w' !! p = Some v).
Proof.
  unfold checkpoint. fold (checkpoint_path dir k l).
  set (path := checkpoint_path dir k l).
  unfold bind at 1. rewrite os_path_exists_spec.
  unfold bind at 1.
  assert (Hmk : forall w1,
             (if negb (match fs w !! dir with Some _ => true | None => false end)
              then os_mkdir dir else ret tt) w = (w1, Ret tt) ->
             os_writable w1 = os_writable w
             /\ stdout w1 = stdout w
             /\ forall p v, fs w !! p = Some v -> fs w1 !! p = Some v).
  { intros w1 E. destruct (fs w !! dir) eqn:Ed; cbn [negb] in E.
    - injection E as <-. repeat split. auto.
    - apply os_mkdir_ret in E. destruct E as [_ ->].
      repeat split. intros p v Hp. cbn [set_fs fs].
      rewrite lookup_insert_ne; [exact Hp | congruence]. }
  destruct ((if negb match fs w !! dir with Some _ => true | None => false end
             then os_mkdir dir else ret tt) w) as [w1 [[] | e]] eqn:Emk;
    [|discriminate].
  destruct (Hmk w1 eq_refl) as (Hw1 & Ho1 & Hk1).
  unfold bind at 1.
  destruct (torch_save net path w1) as [w2 [[] | e]] eqn:Es; [|discriminate].
  apply torch_save_ret in Es. subst w2.
  cbn [print]. intros E. injection E as <-.
  cbn [fs os_writable stdout set_fs].
  split; [apply lookup_insert_eq|].
  split; [rewrite saved_paths_app, Ho1; reflexivity|].
  split; [exact Hw1|].
  intros p v Hne Hp. rewrite lookup_insert_ne by congruence. auto.
Qed.

Lemma bind_ret_inv {A B} (c : M A) (k : A -> M B) w w' b :
  bind c k w = (w', Ret b) ->
  exists w1 a, c w = (w1, Ret a) /\ k a w1 = (w', Ret b).
Proof.
  unfold bind. destruct (c w) as [w1 [a | e]]; [|discriminate].
  intros E. exists w1, a. split; [reflexivity | exact E].
Qed.






Lemma quiet_seed s : quiet (seed s).
Proof.
  intros w. unfold seed. destruct (cuda_is_available w); repeat split.
Qed.

Lemma quiet_setup_visdom e : quiet (setup_visdom e).
Proof.
  unfold setup_visdom.
  repeat (apply quiet_bind; [apply quiet_vis_line_call | intros _]).
  apply quiet_ret.
Qed.

Lemma quiet_setup_device use_cuda : quiet (setup_device use_cuda).
Proof.
  unfold setup_device. apply quiet_bind; [intros w; repeat split|].
  intros available. apply quiet_if; [apply quiet_raise|].
  repeat (apply quiet_bind; [apply quiet_print; reflexivity | intros _]).
  apply quiet_ret.
Qed.

Lemma quiet_np_load path : quiet (np_load path).
Proof.
  intros w. unfold np_load.
  destruct (fs w !! path) as [[| [a | n]] |]; repeat split.
Qed.

Lemma quiet_torch_load path : quiet (torch_load path).
Proof.
  intros w. unfold torch_load.
  destruct (fs w !! path) as [[| [a | n]] |]; repeat split.
Qed.

Lemma quiet_get_dataset_loader x y bs th :
  quiet (get_dataset_loader x y bs th).
Proof.
  unfold get_dataset_loader.
  repeat (apply quiet_bind; [apply quiet_print; reflexivity | intros _]).
  apply quiet_bind; [apply quiet_np_load | intros a].
  apply quiet_bind; [apply quiet_np_load | intros b].
  destruct (make_loader a b bs th); [apply quiet_ret | apply quiet_raise].
Qed.

Lemma quiet_build_net ws device : quiet (build_net ws device).
Proof.
  unfold build_net.
  apply quiet_bind; [apply quiet_print; reflexivity | intros _].
  apply quiet_bind.
  - apply quiet_if.
    + repeat (apply quiet_bind; [apply quiet_print; reflexivity | intros _]).
      apply quiet_bind; [apply quiet_torch_load | intros n]. apply quiet_ret.
    + intros w. destruct (net_init (torch_rng w)) as [r n]. repeat split.
  - intros n.
    repeat (apply quiet_bind; [apply quiet_print; reflexivity | intros _]).
    apply quiet_ret.
Qed.

Lemma quiet_get_optimizer n a b : quiet (get_optimizer n a b).
Proof.
  unfold get_optimizer. apply quiet_if; [|apply quiet_raise].
  apply quiet_bind; [apply quiet_print; reflexivity | intros _].
  apply quiet_ret.
Qed.








End CheckpointRun.

Section DirectoryAndDevice.
Context `{Collaborators}.

Lemma checkpoint_interleaved_alone net dir epoch valid_loss w :
  checkpoint_interleaved (fun w => w) net dir epoch valid_loss w
  = checkpoint net dir epoch valid_loss w.
Proof.
  unfold checkpoint_interleaved, checkpoint, bind.
  destruct (os_path_exists dir w) as [w1 [b | e]]; reflexivity.
Qed.

(** C7, amended.  A call of [checkpoint] creates the directory when it is
    absent and the system allows it, and fails when the system does not; a
    directory that exists at the time of the check is not created again and
    is never a [FileExistsError], so that the calls of the successive
    epochs find the directory the first one made.  A directory that appears
    between the check and [os.mkdir] makes the call end in
    [FileExistsError]. *)
Theorem checkpoint_directory_created_if_absent net dir epoch valid_loss w :
  (fs w !! dir = None -> os_writable w dir = true ->
   fs (fst (checkpoint net dir epoch valid_loss w)) !! dir = Some Dir)
  /\ (fs w !! dir = None -> os_writable w dir = false ->
      checkpoint net dir epoch valid_loss w = (w, Raise OSError))
  /\ (is_Some (fs w !! dir) ->
      checkpoint net dir epoch valid_loss w
      = bind (torch_save net (checkpoint_path dir epoch valid_loss))
             (fun _ => print (PrintCheckpointSaved
                                (checkpoint_path dir epoch valid_loss))) w
      /\ snd (checkpoint net dir epoch valid_loss w) <> Raise FileExistsError)
  /\ (forall w1,
        checkpoint net dir epoch valid_loss w = (w1, Ret tt) ->
        is_Some (fs w1 !! dir))
  /\ (forall other,
        fs w !! dir = None -> is_Some (fs (other w) !! dir) ->
        checkpoint_interleaved other net dir epoch valid_loss w
        = (other w, Raise FileExistsError)).
Proof.
  pose proof (checkpoint_path_not_dir dir epoch valid_loss) as Hne.
  fold (checkpoint_path dir epoch valid_loss) in Hne.
  assert (Hpresent : is_Some (fs w !! dir) ->
            checkpoint net dir epoch valid_loss w
            = bind (torch_save net (checkpoint_path dir epoch valid_loss))
                (fun _ => print (PrintCheckpointSaved
                                   (checkpoint_path dir epoch valid_loss))) w).
  { intros [n Hn]. unfold checkpoint. fold (checkpoint_path dir epoch valid_loss).
    unfold bind at 1. rewrite os_path_exists_spec, Hn. reflexivity. }
  split; [|split; [|split; [|split]]].
  - intros Hd Hw. unfold checkpoint. fold (checkpoint_path dir epoch valid_loss).
    unfold bind at 1. rewrite os_path_exists_spec, Hd. cbn [negb].
    unfold bind at 1. unfold os_mkdir. rewrite Hd, Hw.
    unfold bind, torch_save. cbn [fs set_fs os_writable].
    rewrite lookup_insert_ne by congruence.
    destruct (fs w !! checkpoint_path dir epoch valid_loss) as [[| c] |];
      try destruct (os_writable w (checkpoint_path dir epoch valid_loss));
      cbn [fst fs print set_fs];
      rewrite ?lookup_insert_ne by congruence; apply lookup_insert_eq.
  - intros Hd Hw. unfold checkpoint.
    unfold bind at 1. rewrite os_path_exists_spec, Hd. cbn [negb].
    unfold bind at 1. unfold os_mkdir. rewrite Hd, Hw. reflexivity.
  - intros Hs. split; [exact (Hpresent Hs)|].
    rewrite (Hpresent Hs). unfold bind, torch_save.
    destruct (fs w !! checkpoint_path dir epoch valid_loss) as [[| c] |];
      try destruct (os_writable w (checkpoint_path dir epoch valid_loss));
      cbn [snd print]; discriminate.
  - intros w1 E.
    destruct (fs w !! dir) as [n |] eqn:Hd.
    + destruct (checkpoint_ret _ _ _ _ _ _ E) as (_ & _ & _ & Hkeep).
      exists n. apply Hkeep; [congruence | exact Hd].
    + unfold checkpoint in E. fold (checkpoint_path dir epoch valid_loss) in E.
      unfold bind at 1 in E. rewrite os_path_exists_spec, Hd in E.
      cbn [negb] in E. apply bind_ret_inv in E.
      destruct E as (w2 & [] & Emk & E).
      apply os_mkdir_ret in Emk. destruct Emk as [_ ->].
      apply bind_ret_inv in E. destruct E as (w3 & [] & Es & E).
      apply torch_save_ret in Es. subst w3.
      cbn [print] in E. injection E as <-. cbn [fs set_fs].
      exists Dir. rewrite lookup_insert_ne by congruence.
      apply lookup_insert_eq.
  - intros other Hd [n Hn]. unfold checkpoint_interleaved.
    unfold bind at 1. rewrite os_path_exists_spec, Hd. cbn [negb].
    unfold bind at 1. unfold bind at 1. unfold os_mkdir. rewrite Hn.
    reflexivity.
Qed.



End DirectoryAndDevice.

Section Determinism.
Context `{Collaborators}.

Lemma agree_refl_on w1 w2 :
  agree w1 w2 ->
  fs w1 = fs w2 /\ os_writable w1 = os_writable w2
  /\ cuda_is_available w1 = cuda_is_available w2
  /\ np_rng w1 = np_rng w2 /\ torch_rng w1 = torch_rng w2.
Proof. intros ((? & ? & ?) & ? & ?). repeat split; assumption. Qed.

Lemma agree_intro w1 w2 :
  fs w1 = fs w2 -> os_writable w1 = os_writable w2 ->
  cuda_is_available w1 = cuda_is_available w2 ->
  np_rng w1 = np_rng w2 -> torch_rng w1 = torch_rng w2 ->
  agree w1 w2.
Proof. intros. repeat split; assumption. Qed.

(** A computation that prints nothing and is a function of the files, the
    permissions, the accelerator and the generators. *)
Lemma deterministic_silent {A} (c : M A) :
  (forall w, stdout (fst (c w)) = stdout w) ->
  (forall w1 w2, agree w1 w2 ->
     agree (fst (c w1)) (fst (c w2)) /\ snd (c w1) = snd (c w2)) ->
  deterministic c.
Proof.
  intros Hout Hag w1 w2 Hw. exists [].
  rewrite !Hout, !app_nil_r. destruct (Hag w1 w2 Hw) as [Ha Hs].
  repeat split; try reflexivity; try apply Ha. exact Hs.
Qed.

Lemma deterministic_ret {A} (a : A) : deterministic (ret a).
Proof.
  apply deterministic_silent; [reflexivity|]. intros w1 w2 Hw.
  split; [exact Hw | reflexivity].
Qed.

Lemma deterministic_raise {A} (e : exn) : deterministic (@raise _ A e).
Proof.
  apply deterministic_silent; [reflexivity|]. intros w1 w2 Hw.
  split; [exact Hw | reflexivity].
Qed.

Lemma deterministic_bind {A B} (c : M A) (k : A -> M B) :
  deterministic c -> (forall a, deterministic (k a)) ->
  deterministic (bind c k).
Proof.
  intros Hc Hk w1 w2 Hw. unfold bind.
  destruct (Hc w1 w2 Hw) as (out & O1 & O2 & Ha & Hs).
  destruct (c w1) as [w1' [a1 | e1]], (c w2) as [w2' [a2 | e2]];
    cbn [fst snd] in *; try discriminate Hs.
  - injection Hs as <-.
    destruct (Hk a1 w1' w2' Ha) as (out' & O1' & O2' & Ha' & Hs').
    exists (out ++ out'). rewrite O1', O2', O1, O2, <- !app_assoc.
    split; [reflexivity|]. split; [reflexivity|].
    split; [exact Ha' | exact Hs'].
  - exists out. split; [exact O1|]. split; [exact O2|].
    split; [exact Ha | injection Hs as ->; reflexivity].
Qed.

Lemma deterministic_if {A} (b : bool) (c1 c2 : M A) :
  deterministic c1 -> deterministic c2 ->
  deterministic (if b then c1 else c2).
Proof. destruct b; auto. Qed.

Lemma deterministic_print e : deterministic (print e).
Proof.
  intros w1 w2 Hw. exists [e]. apply agree_refl_on in Hw.
  destruct Hw as (? & ? & ? & ? & ?).
  repeat split; assumption.
Qed.

Lemma deterministic_vis_line_call l : deterministic (vis_line_call l).
Proof.
  apply deterministic_silent; [reflexivity|]. intros w1 w2 Hw.
  apply agree_refl_on in Hw. destruct Hw as (? & ? & ? & ? & ?).
  repeat split; assumption.
Qed.

(** A computation that leaves the world as it is and returns a function
    of what two agreeing worlds share. *)
Lemma deterministic_read {A} (c : M A) :
  (forall w, fst (c w) = w) ->
  (forall w1 w2, agree w1 w2 -> snd (c w1) = snd (c w2)) ->
  deterministic c.
Proof.
  intros Hw Hr. apply deterministic_silent.
  - intros w. rewrite Hw. reflexivity.
  - intros w1 w2 Ha. rewrite !Hw. split; [exact Ha | apply Hr; exact Ha].
Qed.

Lemma deterministic_torch_cuda_is_available :
  deterministic torch_cuda_is_available.
Proof.
  apply deterministic_read; [reflexivity|]. intros w1 w2 Ha.
  apply agree_refl_on in Ha. destruct Ha as (_ & _ & Hc & _).
  unfold torch_cuda_is_available. cbn [snd]. rewrite Hc. reflexivity.
Qed.

Lemma deterministic_os_path_exists p : deterministic (os_path_exists p).
Proof.
  apply deterministic_read; [reflexivity|]. intros w1 w2 Ha.
  apply agree_refl_on in Ha. destruct Ha as (Hf & _).
  unfold os_path_exists. cbn [snd]. rewrite Hf. reflexivity.
Qed.

Lemma deterministic_np_load p : deterministic (np_load p).
Proof.
  apply deterministic_read.
  - intros w. unfold np_load.
    destruct (fs w !! p) as [[| [a | n]] |]; reflexivity.
  - intros w1 w2 Ha. apply agree_refl_on in Ha. destruct Ha as (Hf & _).
    unfold np_load. rewrite Hf.
    destruct (fs w2 !! p) as [[| [a | n]] |]; reflexivity.
Qed.

Lemma deterministic_torch_load p : deterministic (torch_load p).
Proof.
  apply deterministic_read.
  - intros w. unfold torch_load.
    destruct (fs w !! p) as [[| [a | n]] |]; reflexivity.
  - intros w1 w2 Ha. apply agree_refl_on in Ha. destruct Ha as (Hf & _).
    unfold torch_load. rewrite Hf.
    destruct (fs w2 !! p) as [[| [a | n]] |]; reflexivity.
Qed.

Lemma deterministic_os_mkdir p : deterministic (os_mkdir p).
Proof.
  apply deterministic_silent.
  - intros w. unfold os_mkdir.
    destruct (fs w !! p); [reflexivity|].
    destruct (os_writable w p); reflexivity.
  - intros w1 w2 Ha. pose proof Ha as Ha'. apply agree_refl_on in Ha'.
    destruct Ha' as (Hf & Ho & Hc & Hn & Ht).
    unfold os_mkdir. rewrite Hf, Ho.
    destruct (fs w2 !! p); [split; [exact Ha | reflexivity]|].
    destruct (os_writable w2 p); [|split; [exact Ha | reflexivity]].
    split; [|reflexivity]. apply agree_intro; cbn; congruence.
Qed.

Lemma deterministic_torch_save net path : deterministic (torch_save net path).
Proof.
  apply deterministic_silent.
  - intros w. unfold torch_save.
    destruct (fs w !! path) as [[| c] |];
      try destruct (os_writable w path); reflexivity.
  - intros w1 w2 Ha. pose proof Ha as Ha'. apply agree_refl_on in Ha'.
    destruct Ha' as (Hf & Ho & Hc & Hn & Ht).
    unfold torch_save. rewrite Hf, Ho.
    destruct (fs w2 !! path) as [[| c] |];
      try destruct (os_writable w2 path);
      (split; [|reflexivity]); try exact Ha;
      apply agree_intro; cbn; congruence.
Qed.

Lemma deterministic_iterate loader : deterministic (iterate loader).
Proof.
  apply deterministic_silent.
  - intros w. unfold iterate.
    destruct (loader_iter loader (torch_rng w)); reflexivity.
  - intros w1 w2 Ha. apply agree_refl_on in Ha.
    destruct Ha as (Hf & Ho & Hc & Hn & Ht).
    unfold iterate. rewrite Ht.
    destruct (loader_iter loader (torch_rng w2)) as [r batches].
    split; [|reflexivity]. apply agree_intro; cbn; congruence.
Qed.

Lemma deterministic_float_div_int a n : deterministic (float_div_int a n).
Proof.
  unfold float_div_int.
  apply deterministic_if; [apply deterministic_raise | apply deterministic_ret].
Qed.

Lemma deterministic_train_loop (batches : list (list Input * Tensor)) :
  forall epoch len i net opt acc,
    deterministic (train_loop epoch len i batches net opt acc).
Proof.
  induction batches as [| data rest IH]; intros epoch len i net opt acc;
    cbn [train_loop]; [apply deterministic_ret|].
  destruct (adam_step (opt_lr opt) (opt_weight_decay opt) (opt_state opt)
              net (fst data) (snd data)) as [net1 st1].
  apply deterministic_bind; [|intros _; apply IH].
  apply deterministic_if; [apply deterministic_print | apply deterministic_ret].
Qed.

Lemma deterministic_train net epoch loader opt :
  deterministic (train net epoch loader opt).
Proof.
  unfold train.
  apply deterministic_bind; [apply deterministic_iterate|]. intros batches.
  apply deterministic_bind; [apply deterministic_train_loop|].
  intros [[net1 opt1] loss].
  apply deterministic_bind; [apply deterministic_float_div_int|]. intros mean.
  apply deterministic_bind; [apply deterministic_print|]. intros _.
  apply deterministic_ret.
Qed.

Lemma deterministic_validate net loader : deterministic (validate net loader).
Proof.
  unfold validate.
  apply deterministic_bind; [apply deterministic_iterate|]. intros batches.
  destruct (validate_loop batches (net_eval net) 0%Q 0%Q) as [avg_loss avg_acc].
  apply deterministic_bind; [apply deterministic_float_div_int|]. intros m1.
  apply deterministic_bind; [apply deterministic_float_div_int|]. intros m2.
  apply deterministic_bind; [apply deterministic_print|]. intros _.
  apply deterministic_ret.
Qed.

Lemma deterministic_lr_scheduler_step sch opt metrics :
  deterministic (lr_scheduler_step sch opt metrics).
Proof.
  unfold lr_scheduler_step.
  destruct (Plateau.step _ _ _ _) as [s reduced].
  apply deterministic_bind; [|intros _; apply deterministic_ret].
  apply deterministic_if; [apply deterministic_print | apply deterministic_ret].
Qed.

Lemma deterministic_checkpoint net dir epoch valid_loss :
  deterministic (checkpoint net dir epoch valid_loss).
Proof.
  unfold checkpoint.
  apply deterministic_bind; [apply deterministic_os_path_exists|]. intros b.
  apply deterministic_bind.
  { apply deterministic_if; [apply deterministic_os_mkdir | apply deterministic_ret]. }
  intros _.
  apply deterministic_bind; [apply deterministic_torch_save|]. intros _.
  apply deterministic_print.
Qed.

Lemma deterministic_epoch_loop args todo :
  forall tl vl net opt sch,
    deterministic (epoch_loop args todo tl vl net opt sch).
Proof.
  induction todo as [| epoch rest IH]; intros tl vl net opt sch;
    cbn [epoch_loop]; [apply deterministic_ret|].
  apply deterministic_bind; [apply deterministic_train|].
  intros [[net1 opt1] train_loss].
  apply deterministic_bind; [apply deterministic_validate|].
  intros [[net2 valid_loss] valid_acc].
  apply deterministic_bind; [apply deterministic_lr_scheduler_step|].
  intros [sch3 opt3].
  apply deterministic_bind; [apply deterministic_checkpoint|]. intros _.
  apply deterministic_bind; [apply deterministic_print|]. intros _.
  apply deterministic_bind; [|intros _; apply IH].
  apply deterministic_if; [|apply deterministic_ret].
  apply deterministic_bind; [apply deterministic_vis_line_call|]. intros _.
  apply deterministic_bind; [apply deterministic_vis_line_call|]. intros _.
  apply deterministic_vis_line_call.
Qed.

Lemma deterministic_setup_visdom e : deterministic (setup_visdom e).
Proof.
  unfold setup_visdom.
  repeat (apply deterministic_bind; [apply deterministic_vis_line_call | intros _]).
  apply deterministic_ret.
Qed.

Lemma deterministic_setup_device use_cuda : deterministic (setup_device use_cuda).
Proof.
  unfold setup_device.
  apply deterministic_bind; [apply deterministic_torch_cuda_is_available|].
  intros available. apply deterministic_if; [apply deterministic_raise|].
  repeat (apply deterministic_bind; [apply deterministic_print | intros _]).
  apply deterministic_ret.
Qed.

Lemma deterministic_get_dataset_loader x y bs th :
  deterministic (get_dataset_loader x y bs th).
Proof.
  unfold get_dataset_loader.
  repeat (apply deterministic_bind; [apply deterministic_print | intros _]).
  apply deterministic_bind; [apply deterministic_np_load | intros a].
  apply deterministic_bind; [apply deterministic_np_load | intros b].
  destruct (make_loader a b bs th);
    [apply deterministic_ret | apply deterministic_raise].
Qed.

Lemma deterministic_build_net ws device : deterministic (build_net ws device).
Proof.
  unfold build_net.
  apply deterministic_bind; [apply deterministic_print | intros _].
  apply deterministic_bind.
  - apply deterministic_if.
    + repeat (apply deterministic_bind; [apply deterministic_print | intros _]).
      apply deterministic_bind; [apply deterministic_torch_load | intros n].
      apply deterministic_ret.
    + apply deterministic_silent.
      * intros w. destruct (net_init (torch_rng w)); reflexivity.
      * intros w1 w2 Ha. apply agree_refl_on in Ha.
        destruct Ha as (Hf & Ho & Hc & Hn & Ht). rewrite Ht.
        destruct (net_init (torch_rng w2)) as [r n].
        split; [|reflexivity]. apply agree_intro; cbn; congruence.
  - intros n.
    repeat (apply deterministic_bind; [apply deterministic_print | intros _]).
    apply deterministic_ret.
Qed.

Lemma deterministic_get_optimizer n a b : deterministic (get_optimizer n a b).
Proof.
  unfold get_optimizer. apply deterministic_if; [|apply deterministic_raise].
  apply deterministic_bind; [apply deterministic_print | intros _].
  apply deterministic_ret.
Qed.

(** What [main] does after the seeding. *)
Lemma deterministic_after_seed args :
  deterministic
    (bind (if visdom args
           then bind (setup_visdom (env args)) (fun _ => ret tt)
           else ret tt)
       (fun _ =>
        bind (setup_device (cuda args)) (fun device =>
        bind (get_dataset_loader (X_train args) (y_train args)
                (batch_size args) (threads args)) (fun train_set_loader =>
        bind (get_dataset_loader (X_valid args) (y_valid args)
                (valid_batch_size args) (threads args)) (fun valid_set_loader =>
        bind (build_net (warm_start args) device) (fun net =>
        bind get_objective (fun _ =>
        bind (get_optimizer net (lr args) (l2 args)) (fun optimizer =>
        bind (get_lr_scheduler optimizer (patience args)) (fun lr_scheduler =>
        bind (print (PrintText "")) (fun _ =>
        bind (print (PrintText "Training...")) (fun _ =>
        epoch_loop args (epoch_range (epochs args)) train_set_loader
          valid_set_loader net optimizer lr_scheduler))))))))))).
Proof.
  apply deterministic_bind.
  { apply deterministic_if; [|apply deterministic_ret].
    apply deterministic_bind; [apply deterministic_setup_visdom|].
    intros _. apply deterministic_ret. }
  intros _.
  apply deterministic_bind; [apply deterministic_setup_device | intros device].
  apply deterministic_bind; [apply deterministic_get_dataset_loader | intros tl].
  apply deterministic_bind; [apply deterministic_get_dataset_loader | intros vl].
  apply deterministic_bind; [apply deterministic_build_net | intros net].
  apply deterministic_bind; [apply deterministic_print | intros _].
  apply deterministic_bind; [apply deterministic_get_optimizer | intros opt].
  apply deterministic_bind; [apply deterministic_ret | intros sch].
  apply deterministic_bind; [apply deterministic_print | intros _].
  apply deterministic_bind; [apply deterministic_print | intros _].
  apply deterministic_epoch_loop.
Qed.

Lemma train_losses_app (a b : list event) :
  train_losses (a ++ b) = train_losses a ++ train_losses b.
Proof.
  induction a as [| e a IH]; [reflexivity|].
  destruct e; cbn [app train_losses]; rewrite IH; reflexivity.
Qed.

Lemma valid_losses_app (a b : list event) :
  valid_losses (a ++ b) = valid_losses a ++ valid_losses b.
Proof.
  induction a as [| e a IH]; [reflexivity|].
  destruct e; cbn [app valid_losses]; rewrite IH; reflexivity.
Qed.

(** [main] is the seeding followed by a deterministic computation. *)
Lemma main_after_seed args :
  exists rest : M unit,
    deterministic rest
    /\ forall w,
         main args w
         = rest (fst (seed (seed_arg args) (fst (print PrintArgs w)))).
Proof.
  eexists. split; [apply (deterministic_after_seed args)|].
  intros w. unfold main, seed. unfold bind at 1. cbn [print fst].
  unfold bind at 1. cbn [cuda_is_available].
  destruct (cuda_is_available w); reflexivity.
Qed.

Lemma seed_agree s w1 w2 :
  same_setup w1 w2 ->
  agree (fst (seed s (fst (print PrintArgs w1))))
        (fst (seed s (fst (print PrintArgs w2))))
  /\ stdout (fst (seed s (fst (print PrintArgs w1)))) = stdout w1 ++ [PrintArgs]
  /\ stdout (fst (seed s (fst (print PrintArgs w2)))) = stdout w2 ++ [PrintArgs].
Proof.
  intros (Hf & Ho & Hc). unfold seed, print. cbn [fst cuda_is_available].
  rewrite Hc. destruct (cuda_is_available w2); cbn [fst stdout];
    (split; [apply agree_intro; cbn; congruence | split; reflexivity]).
Qed.

(** C9.  Two runs of [main] with the same command line, seed included, on
    the same files and the same machine print the same lines, whatever the
    states of the generators before the runs: the sequences of training
    losses and of validation losses they print are equal, and so are their
    outcomes. *)
Theorem seeded_runs_have_the_same_losses args w1 w2 :
  same_setup w1 w2 ->
  exists out,
    stdout (fst (main args w1)) = stdout w1 ++ out
    /\ stdout (fst (main args w2)) = stdout w2 ++ out
    /\ train_losses (stdout (fst (main args w1)))
       = train_losses (stdout w1) ++ train_losses out
    /\ train_losses (stdout (fst (main args w2)))
       = train_losses (stdout w2) ++ train_losses out
    /\ valid_losses (stdout (fst (main args w1)))
       = valid_losses (stdout w1) ++ valid_losses out
    /\ valid_losses (stdout (fst (main args w2)))
       = valid_losses (stdout w2) ++ valid_losses out
    /\ snd (main args w1) = snd (main args w2).
Proof.
  intros Hsetup.
  destruct (main_after_seed args) as (rest & Hdet & Hmain).
  destruct (seed_agree (seed_arg args) w1 w2 Hsetup) as (Ha & S1 & S2).
  destruct (Hdet _ _ Ha) as (out & O1 & O2 & _ & Hs).
  rewrite <- (Hmain w1) in O1, Hs. rewrite <- (Hmain w2) in O2, Hs.
  rewrite S1 in O1. rewrite S2 in O2.
  rewrite <- app_assoc in O1, O2.
  exists ([PrintArgs] ++ out).
  rewrite O1, O2, !train_losses_app, !valid_losses_app.
  repeat split. exact Hs.
Qed.

End Determinism.

Section SchedulerWiring.
Context `{Collaborators}.

(** [lr_scheduler.step] is the plateau rule on the optimizer's rate. *)
Lemma lr_scheduler_step_plateau sch opt L w :
  let s' := fst (Plateau.step (sched_patience sch) Plateau.default_threshold
                   (Plateau.State (opt_lr opt) (sched_best sch)
                                  (sched_num_bad_epochs sch)) L) in
  snd (lr_scheduler_step sch opt L w)
  = Ret (LrScheduler (sched_patience sch) (Plateau.best_loss s')
                     (Plateau.wait_counter s'),
         Optimizer (Plateau.current_rate s') (opt_weight_decay opt)
                   (opt_state opt)).
Proof.
  unfold lr_scheduler_step.
  destruct (Plateau.step _ _ _ _) as [s reduced]. cbn [fst].
  destruct reduced; reflexivity.
Qed.

(** The optimizer starts from the rate of the command line, which is not
    negative. *)
Lemma get_optimizer_ret net a b w w' opt :
  get_optimizer net a b w = (w', Ret opt) ->
  opt_lr opt = a /\ (0 <= a)%Q.
Proof.
  unfold get_optimizer. destruct (Qle_bool 0 a) eqn:Ea; cbn [andb];
    [|discriminate].
  destruct (Qle_bool 0 b); [|discriminate].
  unfold bind. cbn [print ret]. intros E. injection E as _ <-.
  split; [reflexivity | apply Qle_bool_iff; exact Ea].
Qed.

End SchedulerWiring.

(** Whatever the positive threshold, a decrease smaller than it is not an
    improvement: with no patience the rate is reduced at once. *)
Lemma small_decrease_reduces_rate (threshold rate : Q) :
  (0 < threshold)%Q ->
  Plateau.strictly_decreasing [1; 1 - threshold / (2 # 1)]%Q
  /\ Plateau.reductions 0 threshold 1 (Plateau.init rate)
       [1; 1 - threshold / (2 # 1)]%Q = [2].
Proof.
  intros Ht. split.
  - cbn [Plateau.strictly_decreasing]. split; [|exact I].
    assert (0 < threshold / (2 # 1))%Q by (apply Qlt_shift_div_l; lra). lra.
  - assert (Hb : Plateau.is_better threshold (1 - threshold / (2 # 1))
                   (Some 1%Q) = false).
    { cbn [Plateau.is_better]. apply Qlt_bool_false_iff.
      assert (threshold / (2 # 1) <= threshold)%Q.
      { apply Qle_shift_div_r; lra. }
      lra. }
    cbn [Plateau.reductions].
    rewrite (PlateauFacts.step_better 0 threshold (Plateau.init rate) 1%Q
               eq_refl).
    unfold Plateau.step. cbn [Plateau.best_loss Plateau.wait_counter].
    rewrite Hb. reflexivity.
Qed.

(** C2, as stated, fails: with a network of one weight trained by gradient
    descent, the two batches [b1], [b2] give the training loss 0.58 in
    this order and 0.5 in the other one, the parameters being updated
    after every batch. *)
Lemma train_loss_depends_on_batch_order :
  Permutation [Toy.b1; Toy.b2] [Toy.b2; Toy.b1]
  /\ @returned_loss Toy.collaborators (@train Toy.collaborators 0%Q 1 [Toy.b1; Toy.b2] Toy.opt0 Toy.machine)
     = Some (5800 # 10000)%Q
  /\ @returned_loss Toy.collaborators (@train Toy.collaborators 0%Q 1 [Toy.b2; Toy.b1] Toy.opt0 Toy.machine)
     = Some (5000 # 10000)%Q
  /\ ~ (5800 # 10000 == 5000 # 10000)%Q.
Proof.
  split; [apply perm_swap|].
  split; [vm_compute; reflexivity|].
  split; [vm_compute; reflexivity|].
  intros E. discriminate E.
Qed.

(** C7, as stated, fails: when another process creates the directory
    between the existence check and [os.mkdir], the call ends in
    [FileExistsError]. *)
Lemma concurrent_directory_creation_raises :
  fs Toy.machine !! "checkpoints"%string = None
  /\ snd (@checkpoint_interleaved Toy.collaborators
            (Toy.creates_directory "checkpoints")
            0%Q "checkpoints" 1 (1 # 2) Toy.machine)
     = Raise FileExistsError.
Proof. split; reflexivity. Qed.

(** Witness of C2: the two batches in the order [b1; b2]. *)
Lemma train_returns_rounded_mean_witness :
  @returned_loss Toy.collaborators
    (@train Toy.collaborators 0%Q 1 [Toy.b1; Toy.b2] Toy.opt0 Toy.machine)
  = Some (py_round
            (mean (@batch_losses Toy.collaborators [Toy.b1; Toy.b2]
                     0%Q Toy.opt0)) 4)
  /\ forall order,
       Permutation
         (@batch_losses Toy.collaborators [Toy.b1; Toy.b2] 0%Q Toy.opt0)
         order ->
       py_round (mean order) 4
       = py_round
           (mean (@batch_losses Toy.collaborators [Toy.b1; Toy.b2]
                    0%Q Toy.opt0)) 4.
Proof.
  apply (@train_returns_rounded_mean Toy.collaborators
           0%Q 1 [Toy.b1; Toy.b2] Toy.opt0 Toy.machine).
  simpl. discriminate.
Defined.

(** Witness of C4: the third epoch of the scenario. *)
Lemma plateau_step_without_improvement_witness :
  Plateau.step 2 Plateau.default_threshold
    (Plateau.State (5 # 10000) (Some (9 # 10)%Q) 2) (97 # 100)
  = (Plateau.State ((5 # 10000) * (1 # 10)) (Some (9 # 10)%Q) 0, true).
Proof.
  apply (PlateauFacts.plateau_step_without_improvement 2
           Plateau.default_threshold
           (Plateau.State (5 # 10000) (Some (9 # 10)%Q) 2) (97 # 100)).
  - reflexivity.
  - simpl. lia.
Defined.

(** Witness of C5: the rate of epoch 6 against the rate of epoch 1. *)
Lemma learning_rate_non_increasing_witness :
  ((5 # 10000) * (1 # 10) <= 5 # 10000)%Q.
Proof.
  apply (PlateauFacts.learning_rate_non_increasing 2
           Plateau.default_threshold (Plateau.init (5 # 10000))
           [1; 9 # 10; 95 # 100; 96 # 100; 97 # 100]%Q 0 5).
  - simpl. discriminate.
  - lia.
  - reflexivity.
  - reflexivity.
Defined.

(** Three epochs on the data of [Toy] run to their end. *)
Lemma main_toy_returns :
  @main Toy.collaborators Toy.args Toy.machine
  = (fst (@main Toy.collaborators Toy.args Toy.machine), Ret tt).
Proof.
  assert (E : snd (@main Toy.collaborators Toy.args Toy.machine) = Ret tt)
    by (vm_compute; reflexivity).
  destruct (@main Toy.collaborators Toy.args Toy.machine) as [w r].
  cbn [fst snd] in *. rewrite E. reflexivity.
Defined.


(** Witness of C7: the first checkpoint of a run, and the second. *)
Lemma checkpoint_directory_created_if_absent_witness :
  fs (fst (@checkpoint Toy.collaborators 0%Q "checkpoints" 1 (1 # 2)
             Toy.machine)) !! "checkpoints"%string
  = Some (@Dir Toy.collaborators)
  /\ snd (@checkpoint Toy.collaborators 0%Q "checkpoints" 2 (1 # 2)
            (Toy.creates_directory "checkpoints" Toy.machine))
     <> Raise FileExistsError.
Proof.
  split.
  - apply (proj1 (@checkpoint_directory_created_if_absent Toy.collaborators
                    0%Q "checkpoints" 1 (1 # 2) Toy.machine));
      reflexivity.
  - apply (proj1 (proj2 (proj2
             (@checkpoint_directory_created_if_absent Toy.collaborators
                0%Q "checkpoints" 2 (1 # 2)
                (Toy.creates_directory "checkpoints" Toy.machine))))).
    exists Dir. reflexivity.
Defined.


(** Witness of C9: two machines with the same files and other generator
    states. *)
Lemma seeded_runs_have_the_same_losses_witness :
  exists out,
    stdout (fst (@main Toy.collaborators Toy.args Toy.machine))
    = stdout Toy.machine ++ out
    /\ stdout (fst (@main Toy.collaborators Toy.args Toy.machine_later))
       = stdout Toy.machine_later ++ out
    /\ train_losses (stdout (fst (@main Toy.collaborators Toy.args Toy.machine)))
       = train_losses (stdout Toy.machine) ++ train_losses out
    /\ train_losses
         (stdout (fst (@main Toy.collaborators Toy.args Toy.machine_later)))
       = train_losses (stdout Toy.machine_later) ++ train_losses out
    /\ valid_losses (stdout (fst (@main Toy.collaborators Toy.args Toy.machine)))
       = valid_losses (stdout Toy.machine) ++ valid_losses out
    /\ valid_losses
         (stdout (fst (@main Toy.collaborators Toy.args Toy.machine_later)))
       = valid_losses (stdout Toy.machine_later) ++ valid_losses out
    /\ snd (@main Toy.collaborators Toy.args Toy.machine)
       = snd (@main Toy.collaborators Toy.args Toy.machine_later).
Proof.
  apply (@seeded_runs_have_the_same_losses Toy.collaborators Toy.args
           Toy.machine Toy.machine_later).
  repeat split.
Defined.

(** Witness of C10: a loader that yields no batch. *)
Lemma empty_loader_division_by_zero_witness :
  snd (@train Toy.collaborators 0%Q 1 [] Toy.opt0 Toy.machine)
  = Raise ZeroDivisionError
  /\ snd (@validate Toy.collaborators 0%Q [] Toy.machine)
     = Raise ZeroDivisionError.
Proof.
  apply (proj1 (@empty_loader_division_by_zero Toy.collaborators
                  0%Q 1 [] Toy.opt0 Toy.machine)).
  reflexivity.
Defined.

(* ===================================================================== *)
(** * Further properties of the script *)
(* ===================================================================== *)

Section RoundingBounds.


(** A number between two integers is rounded between them. *)
Lemma round_half_even_between (a b : Z) (x : Q) :
  (inject_Z a <= x)%Q -> (x <= inject_Z b)%Q ->
  a <= round_half_even x <= b.
Proof.
  intros Ha Hb.
  assert (Hfa : a <= Qfloor x).
  { rewrite <- (Qfloor_Z a). apply Qfloor_resp_le. exact Ha. }
  assert (Hfb : Qfloor x <= b).
  { rewrite <- (Qfloor_Z b). apply Qfloor_resp_le. exact Hb. }
  assert (Hup : Qfloor x = b \/ Qfloor x + 1 <= b) by lia.
  unfold round_half_even.
  destruct (Qcompare_spec (x - inject_Z (Qfloor x)) (1 # 2)) as [E | E | E].
  - destruct (Z.even (Qfloor x)); [lia|].
    destruct Hup as [Hup | Hup]; [|lia].
    rewrite Hup in E. lra.
  - lia.
  - destruct Hup as [Hup | Hup]; [|lia].
    rewrite Hup in E. lra.
Qed.


Lemma py_round_4_unit (x : Q) :
  (0 <= x)%Q -> (x <= 1)%Q -> (0 <= py_round x 4)%Q /\ (py_round x 4 <= 1)%Q.
Proof.
  intros H0 H1. unfold py_round.
  change (Z.to_pos (10 ^ Z.of_nat 4)) with 10000%positive.
  destruct (round_half_even_between 0 10000 (x * inject_Z 10000)) as [Hlo Hhi].
  - change (inject_Z 0) with 0%Q. change (inject_Z 10000) with (10000 # 1)%Q.
    lra.
  - change (inject_Z 10000) with (10000 # 1)%Q. lra.
  - set (z := round_half_even (x * inject_Z 10000)) in *.
    unfold Qle. cbn [Qnum Qden]. lia.
Qed.

End RoundingBounds.

Section ValidateFacts.
Context `{Collaborators}.

Lemma validate_loop_sums (batches : list (list Input * Tensor)) :
  forall net a b,
    (fst (validate_loop batches net a b)
     == a + Qsum (map (batch_loss net) batches))%Q
    /\ (snd (validate_loop batches net a b)
        == b + Qsum (map (batch_acc net) batches))%Q.
Proof.
  induction batches as [| data rest IH]; intros net a b.
  - cbn [validate_loop map Qsum fold_right fst snd]. split; lra.
  - cbn [validate_loop map].
    destruct (IH net (a + objective (net_call net (fst data)) (snd data))%Q
                (b + batch_accuracy (net_call net (fst data)) (snd data)
                       (length (fst data)))%Q) as [Ha Hb].
    rewrite Ha, Hb. cbn [Qsum fold_right].
    fold (Qsum (map (batch_loss net) rest)) (Qsum (map (batch_acc net) rest)).
    unfold batch_loss at 2, batch_acc at 2. split; lra.
Qed.

(** On a loader that yields a batch, [validate] returns the network in
    evaluation mode and the rounded means of the batch losses and of the
    batch accuracies. *)
Lemma validate_outcome net loader w :
  snd (loader_iter loader (torch_rng w)) <> [] ->
  snd (validate net loader w)
  = Ret (net_eval net,
         py_round (mean (map (batch_loss (net_eval net))
                             (snd (loader_iter loader (torch_rng w))))) 4,
         py_round (mean (map (batch_acc (net_eval net))
                             (snd (loader_iter loader (torch_rng w))))) 4).
Proof.
  intros Hne. unfold validate, iterate. unfold bind at 1.
  destruct (loader_iter loader (torch_rng w)) as [r batches].
  cbn [snd] in *.
  destruct (validate_loop_sums batches (net_eval net) 0%Q 0%Q) as [Ha Hb].
  destruct (validate_loop batches (net_eval net) 0%Q 0%Q)
    as [avg_loss avg_acc].
  cbn [fst snd] in Ha, Hb.
  unfold bind at 1.
  rewrite float_div_int_nonzero by (apply length_nonzero; exact Hne).
  unfold bind at 1.
  rewrite float_div_int_nonzero by (apply length_nonzero; exact Hne).
  unfold bind. cbn [print snd]. unfold ret. cbn [snd].
  assert (E1 : py_round (avg_loss / inject_Z (Z.of_nat (length batches))) 4
               = py_round (mean (map (batch_loss (net_eval net)) batches)) 4).
  { apply py_round_comp. unfold mean. rewrite Ha, Qplus_0_l, length_map.
    reflexivity. }
  assert (E2 : py_round (avg_acc / inject_Z (Z.of_nat (length batches))) 4
               = py_round (mean (map (batch_acc (net_eval net)) batches)) 4).
  { apply py_round_comp. unfold mean. rewrite Hb, Qplus_0_l, length_map.
    reflexivity. }
  rewrite E1, E2. reflexivity.
Qed.


Lemma Qsum_unit_bounds (l : list Q) :
  Forall (fun x => (0 <= x)%Q /\ (x <= 1)%Q) l ->
  (0 <= Qsum l)%Q /\ (Qsum l <= inject_Z (Z.of_nat (length l)))%Q.
Proof.
  induction 1 as [| x l [H0 H1] _ [IH0 IH1]].
  - cbn. split; apply Qle_refl.
  - cbn [Qsum fold_right length]. fold (Qsum l).
    rewrite Nat2Z.inj_succ. unfold Z.succ. rewrite inject_Z_plus.
    change (inject_Z 1) with 1%Q. split; lra.
Qed.

Lemma mean_unit_bounds (l : list Q) :
  l <> [] ->
  Forall (fun x => (0 <= x)%Q /\ (x <= 1)%Q) l ->
  (0 <= mean l)%Q /\ (mean l <= 1)%Q.
Proof.
  intros Hne Hl. destruct (Qsum_unit_bounds l Hl) as [H0 H1]. unfold mean.
  assert (Hpos : (0 < inject_Z (Z.of_nat (length l)))%Q).
  { change 0%Q with (inject_Z 0). rewrite <- Zlt_Qlt.
    destruct l; [congruence | simpl; lia]. }
  split.
  - apply Qle_shift_div_l; [exact Hpos | rewrite Qmult_0_l; exact H0].
  - apply Qle_shift_div_r; [exact Hpos | rewrite Qmult_1_l; exact H1].
Qed.

Lemma batch_acc_unit net data :
  (forall x, (0 <= sigmoid x)%Q /\ (sigmoid x <= 1)%Q) ->
  well_formed_batch net data ->
  (0 <= batch_acc net data)%Q /\ (batch_acc net data <= 1)%Q.
Proof.
  intros Hs (Hn & Hlen & Hshape). unfold batch_acc.
  rewrite (batch_accuracy_count _ _ _ Hs Hshape).
  assert (Hle : (matching_samples (net_call net (fst data)) (snd data)
                 <= length (fst data))%nat).
  { unfold matching_samples.
    etransitivity; [apply filter_length_le|].
    rewrite length_zip_with. lia. }
  destruct (Qdiv_nat_unit _ _ Hn Hle) as (H0 & H1 & _). split; assumption.
Qed.

(** X2.  The accuracy that [validate] returns lies between 0 and 1, when
    every batch has at least one sample, one target row per sample and an
    output of the shape of its target. *)
Theorem validate_accuracy_in_unit_interval
    net loader w w' net' valid_loss valid_acc :
  (forall x, (0 <= sigmoid x)%Q /\ (sigmoid x <= 1)%Q) ->
  Forall (well_formed_batch (net_eval net))
         (snd (loader_iter loader (torch_rng w))) ->
  validate net loader w = (w', Ret (net', valid_loss, valid_acc)) ->
  (0 <= valid_acc)%Q /\ (valid_acc <= 1)%Q.
Proof.
  intros Hs Hwf E.
  destruct (snd (loader_iter loader (torch_rng w))) as [| b bs] eqn:Eb.
  - pose proof (validate_empty net loader w Eb) as He.
    rewrite E in He. discriminate He.
  - pose proof (validate_outcome net loader w) as Ho.
    rewrite Eb in Ho. specialize (Ho ltac:(discriminate)).
    rewrite E in Ho. cbn [snd] in Ho. injection Ho as _ _ ->.
    assert (Hm : (0 <= mean (map (batch_acc (net_eval net)) (b :: bs)))%Q
                 /\ (mean (map (batch_acc (net_eval net)) (b :: bs)) <= 1)%Q).
    { apply mean_unit_bounds; [cbn [map]; discriminate|].
      rewrite List.Forall_forall. intros x Hx.
      apply in_map_iff in Hx. destruct Hx as (d & <- & Hd).
      apply batch_acc_unit; [exact Hs|].
      rewrite List.Forall_forall in Hwf. apply Hwf. exact Hd. }
    destruct Hm as [Hm0 Hm1]. apply py_round_4_unit; assumption.
Qed.


End ValidateFacts.

Section TargetsAndProgress.
Context `{Collaborators}.

Lemma threshold_half_binary (p : Q) :
  threshold_half p = 0%Q \/ threshold_half p = 1%Q.
Proof.
  unfold threshold_half. destruct (Plateau.Qlt_bool (1 # 2) p); auto.
Qed.

Lemma exact_match_binary (logits target_row : list Q) :
  exact_match logits target_row = true ->
  Forall (fun y => (y == 0)%Q \/ (y == 1)%Q) target_row.
Proof.
  unfold exact_match, prediction. rewrite vectors_equal_spec.
  revert target_row.
  induction logits as [| x logits IH]; intros target_row HF; cbn [map] in HF;
    inversion HF as [| y q t pr Hyq Hrest]; subst; constructor.
  - destruct (threshold_half_binary (sigmoid x)) as [E | E];
      rewrite E in Hyq; auto.
  - apply IH. exact Hrest.
Qed.

Lemma matching_samples_none (output target : Tensor) :
  Forall (fun t => Exists (fun y => ~ (y == 0)%Q /\ ~ (y == 1)%Q) t) target ->
  matching_samples output target = 0%nat.
Proof.
  unfold matching_samples. intros Hbad. revert output.
  induction Hbad as [| t target Ht _ IH]; intros [| o output];
    cbn [zip_with List.filter length]; try reflexivity.
  destruct (exact_match o t) eqn:E; cbn [fst snd]; rewrite ?E.
  - exfalso. apply exact_match_binary in E.
    apply List.Exists_exists in Ht. destruct Ht as (y & Hy & Hn0 & Hn1).
    rewrite List.Forall_forall in E. destruct (E y Hy); contradiction.
  - apply IH.
Qed.

(** X5.  A sample whose target has a value other than 0 and 1 never
    counts as a match, whatever the output: the prediction is 0 or 1 in
    every dimension.  A batch of such targets has the accuracy 0. *)
Theorem non_binary_targets_never_match (output target : Tensor) (n : nat) :
  (forall x, (0 <= sigmoid x)%Q /\ (sigmoid x <= 1)%Q) ->
  Forall2 (fun o t => length o = length t) output target ->
  Forall (fun t => Exists (fun y => ~ (y == 0)%Q /\ ~ (y == 1)%Q) t) target ->
  (batch_accuracy output target n == 0)%Q.
Proof.
  intros Hs Hshape Hbad.
  rewrite (batch_accuracy_count output target n Hs Hshape).
  rewrite (matching_samples_none output target Hbad).
  unfold Qdiv. change (inject_Z (Z.of_nat 0)) with 0%Q. apply Qmult_0_l.
Qed.

Lemma progress_indices_app (a b : list event) :
  progress_indices (a ++ b) = progress_indices a ++ progress_indices b.
Proof.
  induction a as [| e a IH]; [reflexivity|].
  destruct e; cbn [app progress_indices]; rewrite IH; reflexivity.
Qed.

Lemma train_loop_progress (batches : list (list Input * Tensor)) :
  forall epoch len i net opt acc w,
    progress_indices
      (stdout (fst (train_loop epoch len i batches net opt acc w)))
    = progress_indices (stdout w)
      ++ List.filter (fun k => k mod 10000 =? 0)
           (map (fun j => i + Z.of_nat j) (seq 0 (length batches))).
Proof.
  induction batches as [| data rest IH]; intros epoch len i net opt acc w.
  - cbn. rewrite app_nil_r. reflexivity.
  - cbn [train_loop length].
    destruct (adam_step (opt_lr opt) (opt_weight_decay opt) (opt_state opt)
                net (fst data) (snd data)) as [net1 st1].
    cbn [seq map List.filter]. rewrite <- seq_shift, map_map.
    rewrite (map_ext (fun j => i + Z.of_nat (S j))
                     (fun j => i + 1 + Z.of_nat j)) by (intros; lia).
    replace (i + Z.of_nat 0) with i by lia.
    unfold bind at 1.
    destruct (i mod 10000 =? 0); cbn [print ret fst]; rewrite IH;
      cbn [stdout]; rewrite ?progress_indices_app; cbn [progress_indices];
      rewrite <- ?app_assoc; reflexivity.
Qed.

Lemma filter_multiples_below (n : nat) :
  Z.of_nat n < 10000 ->
  List.filter (fun k => k mod 10000 =? 0) (map Z.of_nat (seq 1 n)) = [].
Proof.
  intros Hn.
  assert (Hall : forall k, In k (map Z.of_nat (seq 1 n)) ->
                           (k mod 10000 =? 0) = false).
  { intros k Hk. apply in_map_iff in Hk. destruct Hk as (j & <- & Hj).
    apply in_seq in Hj. apply Z.eqb_neq.
    rewrite Z.mod_small by lia. lia. }
  induction (map Z.of_nat (seq 1 n)) as [| k l IH]; [reflexivity|].
  cbn [List.filter]. rewrite (Hall k) by (left; reflexivity).
  apply IH. intros k' Hk'. apply Hall. right. exact Hk'.
Qed.

(** X4.  [train] prints a progress line for the batches whose number, from
    1, is a multiple of 10000, in order, and for no other batch; an epoch
    of fewer than 10000 batches prints none. *)
Theorem train_progress_every_10000_batches net epoch loader opt w :
  progress_indices (stdout (fst (train net epoch loader opt w)))
  = progress_indices (stdout w)
    ++ List.filter (fun k => k mod 10000 =? 0)
         (map Z.of_nat
              (seq 1 (length (snd (loader_iter loader (torch_rng w))))))
  /\ (Z.of_nat (length (snd (loader_iter loader (torch_rng w)))) < 10000 ->
      progress_indices (stdout (fst (train net epoch loader opt w)))
      = progress_indices (stdout w)).
Proof.
  assert (Hmain :
    progress_indices (stdout (fst (train net epoch loader opt w)))
    = progress_indices (stdout w)
      ++ List.filter (fun k => k mod 10000 =? 0)
           (map Z.of_nat
                (seq 1 (length (snd (loader_iter loader (torch_rng w))))))).
  { unfold train, iterate. unfold bind at 1.
    destruct (loader_iter loader (torch_rng w)) as [r batches]. cbn [snd].
    unfold bind at 1.
    pose proof (train_loop_progress batches epoch
                  (Z.of_nat (length batches)) 1 (net_train net) opt 0%Q
                  (set_torch_rng r w)) as Hp.
    destruct (train_loop epoch (Z.of_nat (length batches)) 1 batches
                (net_train net) opt 0%Q (set_torch_rng r w))
      as [w1 [[[net1 opt1] loss] | e]]; cbn [fst] in Hp.
    - unfold bind at 1. unfold float_div_int.
      rewrite <- seq_shift, map_map.
      rewrite (map_ext (fun j => Z.of_nat (S j))
                       (fun j => 1 + Z.of_nat j)) by (intros; lia).
      destruct (Z.of_nat (length batches) =? 0);
        cbn [raise ret bind print fst stdout];
        [exact Hp|].
      unfold bind. cbn [print ret fst stdout].
      rewrite progress_indices_app. cbn [progress_indices].
      rewrite app_nil_r. exact Hp.
    - rewrite <- seq_shift, map_map.
      rewrite (map_ext (fun j => Z.of_nat (S j))
                       (fun j => 1 + Z.of_nat j)) by (intros; lia).
      exact Hp. }
  split; [exact Hmain|].
  intros Hn. rewrite Hmain, (filter_multiples_below _ Hn), app_nil_r.
  reflexivity.
Qed.

End TargetsAndProgress.

Section CheckpointOutcomes.
Context `{Collaborators}.





(** What a successful [checkpoint] needed and what it leaves. *)
Lemma checkpoint_ret_state net dir epoch valid_loss w w1 :
  checkpoint net dir epoch valid_loss w = (w1, Ret tt) ->
  os_writable w1 (checkpoint_path dir epoch valid_loss) = true
  /\ is_Some (fs w1 !! dir)
  /\ fs w1 !! checkpoint_path dir epoch valid_loss = Some (File (Pth net)).
Proof.
  intros E.
  destruct (checkpoint_ret _ _ _ _ _ _ E) as (Hfile & _ & Hos & Hkeep).
  pose proof (checkpoint_path_not_dir dir epoch valid_loss) as Hne.
  fold (checkpoint_path dir epoch valid_loss) in Hne.
  split; [|split; [|exact Hfile]].
  - rewrite Hos. clear Hfile Hos Hkeep.
    unfold checkpoint in E. fold (checkpoint_path dir epoch valid_loss) in E.
    apply bind_ret_inv in E. destruct E as (wa & b & Ea & E).
    rewrite os_path_exists_spec in Ea. injection Ea as <- <-.
    apply bind_ret_inv in E. destruct E as (wb & [] & Eb & E).
    apply bind_ret_inv in E. destruct E as (wc & [] & Ec & E).
    assert (Hwb : os_writable wb = os_writable w).
    { destruct (fs w !! dir); cbn [negb] in Eb.
      - injection Eb as <-. reflexivity.
      - apply os_mkdir_ret in Eb. destruct Eb as [_ ->]. reflexivity. }
    rewrite <- Hwb. unfold torch_save in Ec.
    destruct (fs wb !! checkpoint_path dir epoch valid_loss) as [[| c] |];
      try discriminate Ec;
      destruct (os_writable wb (checkpoint_path dir epoch valid_loss));
      try discriminate Ec; reflexivity.
  - destruct (fs w !! dir) as [n |] eqn:Hd.
    + exists n. apply Hkeep; [congruence | exact Hd].
    + unfold checkpoint in E. fold (checkpoint_path dir epoch valid_loss) in E.
      apply bind_ret_inv in E. destruct E as (wa & b & Ea & E).
      rewrite os_path_exists_spec, Hd in Ea. injection Ea as <- <-.
      cbn [negb] in E.
      apply bind_ret_inv in E. destruct E as (wb & [] & Eb & E).
      apply os_mkdir_ret in Eb. destruct Eb as [_ ->].
      apply bind_ret_inv in E. destruct E as (wc & [] & Ec & E).
      apply torch_save_ret in Ec. subst wc.
      cbn [print] in E. injection E as <-. cbn [fs set_fs].
      exists Dir. rewrite lookup_insert_ne by congruence.
      apply lookup_insert_eq.
Qed.

(** X7.  After a checkpoint has been saved, saving another network for
    the same epoch and the same validation loss succeeds and replaces the
    file: the path then holds the second network, and no other path
    changes. *)
Theorem checkpoint_again_replaces net1 net2 dir epoch valid_loss w w1 :
  checkpoint net1 dir epoch valid_loss w = (w1, Ret tt) ->
  exists w2,
    checkpoint net2 dir epoch valid_loss w1 = (w2, Ret tt)
    /\ fs w2
       = <[checkpoint_path dir epoch valid_loss := File (Pth net2)]> (fs w1)
    /\ fs w2 !! checkpoint_path dir epoch valid_loss = Some (File (Pth net2)).
Proof.
  intros E.
  destruct (checkpoint_ret_state _ _ _ _ _ _ E) as (Hw & [n Hn] & Hfile).
  unfold checkpoint. fold (checkpoint_path dir epoch valid_loss).
  unfold bind at 1. rewrite os_path_exists_spec, Hn. cbn [negb].
  unfold bind at 1. cbn [ret]. unfold bind, torch_save.
  rewrite Hfile, Hw. cbn [print].
  eexists. split; [reflexivity|]. cbn [fs set_fs].
  split; [reflexivity | apply lookup_insert_eq].
Qed.

End CheckpointOutcomes.

Section Confinement.
Context `{Collaborators}.

Lemma confined_weaken {A} (P Q : string -> Prop) (c : M A) :
  (forall p, P p -> Q p) -> confined P c -> confined Q c.
Proof.
  intros HPQ Hc w. destruct (Hc w) as [Hout Hkeep]. split; [|exact Hkeep].
  intros p Hp. apply Hout. intros HP. apply Hp, HPQ, HP.
Qed.

Lemma confined_same_fs {A} (P : string -> Prop) (c : M A) :
  (forall w, fs (fst (c w)) = fs w) -> confined P c.
Proof. intros Hf w. rewrite Hf. split; auto. Qed.

Lemma confined_quiet {A} (P : string -> Prop) (c : M A) :
  quiet c -> confined P c.
Proof.
  intros Hq. apply confined_same_fs. intros w.
  destruct (Hq w) as (Hf & _ & _). exact Hf.
Qed.

Lemma confined_bind {A B} (P : string -> Prop) (c : M A) (k : A -> M B) :
  confined P c -> (forall a, confined P (k a)) -> confined P (bind c k).
Proof.
  intros Hc Hk w. unfold bind. destruct (Hc w) as [Hout Hkeep].
  destruct (c w) as [w1 [a | e]]; cbn [fst] in *; [|split; assumption].
  destruct (Hk a w1) as [Hout1 Hkeep1]. split.
  - intros p Hp. rewrite Hout1, Hout by exact Hp. reflexivity.
  - intros p Hp. apply Hkeep1, Hkeep, Hp.
Qed.

Lemma confined_os_mkdir dir : confined (fun p => p = dir) (os_mkdir dir).
Proof.
  intros w. unfold os_mkdir.
  destruct (fs w !! dir) eqn:Hd; [split; auto|].
  destruct (os_writable w dir); [|split; auto].
  cbn [fst fs set_fs]. split.
  - intros p Hp. apply lookup_insert_ne. congruence.
  - intros p [v Hv]. exists v. rewrite lookup_insert_ne; congruence.
Qed.

Lemma confined_torch_save net path :
  confined (fun p => p = path) (torch_save net path).
Proof.
  intros w. unfold torch_save.
  destruct (fs w !! path) as [[| c] |] eqn:Hp;
    try destruct (os_writable w path); try (split; auto; fail);
    cbn [fst fs set_fs]; (split;
      [intros p Hn; apply lookup_insert_ne; congruence|]);
    intros p [v Hv];
    (destruct (decide (path = p)) as [-> | Hne];
     [eexists; apply lookup_insert_eq
     | exists v; rewrite lookup_insert_ne by exact Hne; exact Hv]).
Qed.

Lemma confined_checkpoint net dir epoch valid_loss :
  confined (fun p => p = dir \/ p = checkpoint_path dir epoch valid_loss)
           (checkpoint net dir epoch valid_loss).
Proof.
  unfold checkpoint. fold (checkpoint_path dir epoch valid_loss).
  apply confined_bind.
  { apply confined_quiet. intros w. rewrite os_path_exists_spec.
    apply no_checkpoint_refl. }
  intros b. apply confined_bind.
  { destruct (negb b).
    - eapply confined_weaken; [|apply confined_os_mkdir]. intros p ->. auto.
    - apply confined_quiet, quiet_ret. }
  intros _. apply confined_bind.
  { eapply confined_weaken; [|apply confined_torch_save]. intros p ->. auto. }
  intros _. apply confined_same_fs. reflexivity.
Qed.

Lemma checkpoint_paths_cons dir epoch rest p :
  checkpoint_paths dir rest p -> checkpoint_paths dir (epoch :: rest) p.
Proof.
  intros [-> | (k & l & Hk & ->)]; [left; reflexivity|].
  right. exists k, l. split; [right; exact Hk | reflexivity].
Qed.

Lemma confined_epoch_loop args todo :
  forall tl vl net opt sch,
    confined (checkpoint_paths (pth_dir args) todo)
             (epoch_loop args todo tl vl net opt sch).
Proof.
  induction todo as [| epoch rest IH]; intros tl vl net opt sch;
    cbn [epoch_loop]; [apply confined_quiet, quiet_ret|].
  apply confined_bind; [apply confined_quiet, quiet_train|].
  intros [[net1 opt1] train_loss].
  apply confined_bind; [apply confined_quiet, quiet_validate|].
  intros [[net2 valid_loss] valid_acc].
  apply confined_bind; [apply confined_quiet, quiet_lr_scheduler_step|].
  intros [sch3 opt3].
  apply confined_bind.
  { eapply confined_weaken; [|apply confined_checkpoint].
    intros p [-> | ->]; [left; reflexivity|].
    right. exists epoch, valid_loss. split; [left; reflexivity | reflexivity]. }
  intros _.
  apply confined_bind; [apply confined_quiet, quiet_print; reflexivity|].
  intros _. apply confined_bind.
  { apply confined_quiet, quiet_if; [|apply quiet_ret].
    apply quiet_bind; [apply quiet_vis_line_call|]. intros _.
    apply quiet_bind; [apply quiet_vis_line_call|]. intros _.
    apply quiet_vis_line_call. }
  intros _. eapply confined_weaken; [|apply IH].
  intros p. apply checkpoint_paths_cons.
Qed.

(** What [main] does before the epoch loop touches no file and saves no
    checkpoint. *)
Lemma quiet_main_with args (loop : Loader -> Loader -> Net -> optimizer ->
                                  lr_scheduler -> M unit) :
  (forall tl vl net opt sch, quiet (loop tl vl net opt sch)) ->
  quiet
    (bind (print PrintArgs) (fun _ =>
     bind (seed (seed_arg args)) (fun _ =>
     bind (if visdom args
           then bind (setup_visdom (env args)) (fun _ => ret tt)
           else ret tt) (fun _ =>
     bind (setup_device (cuda args)) (fun device =>
     bind (get_dataset_loader (X_train args) (y_train args)
             (batch_size args) (threads args)) (fun train_set_loader =>
     bind (get_dataset_loader (X_valid args) (y_valid args)
             (valid_batch_size args) (threads args)) (fun valid_set_loader =>
     bind (build_net (warm_start args) device) (fun net =>
     bind get_objective (fun _ =>
     bind (get_optimizer net (lr args) (l2 args)) (fun optimizer =>
     bind (get_lr_scheduler optimizer (patience args)) (fun lr_scheduler =>
     bind (print (PrintText "")) (fun _ =>
     bind (print (PrintText "Training...")) (fun _ =>
     loop train_set_loader valid_set_loader net optimizer
          lr_scheduler))))))))))))).
Proof.
  intros Hloop.
  apply quiet_bind; [apply quiet_print; reflexivity | intros _].
  apply quiet_bind; [apply quiet_seed | intros _].
  apply quiet_bind.
  { apply quiet_if; [|apply quiet_ret].
    apply quiet_bind; [apply quiet_setup_visdom | intros _; apply quiet_ret]. }
  intros _.
  apply quiet_bind; [apply quiet_setup_device | intros device].
  apply quiet_bind; [apply quiet_get_dataset_loader | intros tl].
  apply quiet_bind; [apply quiet_get_dataset_loader | intros vl].
  apply quiet_bind; [apply quiet_build_net | intros net].
  apply quiet_bind; [apply quiet_print; reflexivity | intros _].
  apply quiet_bind; [apply quiet_get_optimizer | intros opt].
  apply quiet_bind; [apply quiet_ret | intros sch].
  apply quiet_bind; [apply quiet_print; reflexivity | intros _].
  apply quiet_bind; [apply quiet_print; reflexivity | intros _].
  apply Hloop.
Qed.

Lemma confined_main args :
  confined (checkpoint_paths (pth_dir args) (epoch_range (epochs args)))
           (main args).
Proof.
  unfold main.
  apply confined_bind; [apply confined_quiet, quiet_print; reflexivity|].
  intros _.
  apply confined_bind; [apply confined_quiet, quiet_seed | intros _].
  apply confined_bind.
  { apply confined_quiet, quiet_if; [|apply quiet_ret].
    apply quiet_bind; [apply quiet_setup_visdom | intros _; apply quiet_ret]. }
  intros _.
  apply confined_bind; [apply confined_quiet, quiet_setup_device|].
  intros device.
  apply confined_bind; [apply confined_quiet, quiet_get_dataset_loader|].
  intros tl.
  apply confined_bind; [apply confined_quiet, quiet_get_dataset_loader|].
  intros vl.
  apply confined_bind; [apply confined_quiet, quiet_build_net | intros net].
  apply confined_bind; [apply confined_quiet, quiet_print; reflexivity|].
  intros _.
  apply confined_bind; [apply confined_quiet, quiet_get_optimizer|].
  intros opt.
  apply confined_bind; [apply confined_quiet, quiet_ret | intros sch].
  apply confined_bind; [apply confined_quiet, quiet_print; reflexivity|].
  intros _.
  apply confined_bind; [apply confined_quiet, quiet_print; reflexivity|].
  intros _. apply confined_epoch_loop.
Qed.

(** X8.  Whatever its outcome, a run of [main] changes the entry of no
    path other than the checkpoint directory and the checkpoints of the
    epochs 1 to N, and it removes no entry: the data files and a warm-start
    file are as they were. *)
Theorem main_writes_only_checkpoints args w :
  (forall p,
     p <> pth_dir args ->
     (forall k l,
        1 <= k <= epochs args ->
        p <> checkpoint_path (pth_dir args) k l) ->
     fs (fst (main args w)) !! p = fs w !! p)
  /\ (forall p, is_Some (fs w !! p) -> is_Some (fs (fst (main args w)) !! p)).
Proof.
  destruct (confined_main args w) as [Hout Hkeep]. split; [|exact Hkeep].
  intros p Hdir Hcp. apply Hout.
  intros [Hp | (k & l & Hk & Hp)]; [contradiction|].
  apply (Hcp k l); [|exact Hp].
  unfold epoch_range in Hk. apply in_map_iff in Hk.
  destruct Hk as (j & <- & Hj). apply in_seq in Hj. lia.
Qed.

(** X9.  With [--epochs] 0 or negative, [main] runs no epoch: it leaves the
    file system as it was and announces no checkpoint. *)
Theorem no_epoch_no_checkpoint args w :
  epochs args <= 0 ->
  fs (fst (main args w)) = fs w
  /\ saved_paths (stdout (fst (main args w))) = saved_paths (stdout w).
Proof.
  intros Hn.
  assert (Hq : quiet (main args)).
  { unfold main. apply quiet_main_with. intros tl vl net opt sch.
    unfold epoch_range. replace (Z.to_nat (epochs args)) with 0%nat by lia.
    cbn [seq map epoch_loop]. apply quiet_ret. }
  destruct (Hq w) as (Hf & _ & Hs). split; assumption.
Qed.

End Confinement.

Section VisdomIsObservational.
Context `{Collaborators}.















End VisdomIsObservational.

Section Reports.
Context `{Collaborators}.

Lemma summary_app (a b : list event) :
  summary (a ++ b) = summary a ++ summary b.
Proof.
  induction a as [| e a IH]; [reflexivity|].
  destruct e; cbn [app summary]; rewrite IH; reflexivity.
Qed.

Lemma preserves_ret {X A} (obs : world -> X) (a : A) : preserves obs (ret a).
Proof. intros w. reflexivity. Qed.

Lemma preserves_raise {X A} (obs : world -> X) (e : exn) :
  preserves obs (@raise _ A e).
Proof. intros w. reflexivity. Qed.

Lemma preserves_bind {X A B} (obs : world -> X) (c : M A) (k : A -> M B) :
  preserves obs c -> (forall a, preserves obs (k a)) ->
  preserves obs (bind c k).
Proof.
  intros Hc Hk w. unfold bind. specialize (Hc w).
  destruct (c w) as [w1 [a | e]]; cbn [fst] in *; [|exact Hc].
  rewrite Hk. exact Hc.
Qed.

Lemma preserves_if {X A} (obs : world -> X) (b : bool) (c1 c2 : M A) :
  preserves obs c1 -> preserves obs c2 ->
  preserves obs (if b then c1 else c2).
Proof. destruct b; auto. Qed.

(** A computation that prints nothing and plots nothing. *)
Lemma preserves_reported_silent {A} (c : M A) :
  (forall w, stdout (fst (c w)) = stdout w
             /\ vis_calls (fst (c w)) = vis_calls w) ->
  preserves reported c.
Proof.
  intros Hc w. destruct (Hc w) as [Hs Hv]. unfold reported.
  rewrite Hs, Hv. reflexivity.
Qed.

Lemma preserves_reported_print (e : event) :
  summary [e] = [] -> preserves reported (print e).
Proof.
  intros He w. unfold reported, print. cbn [fst stdout vis_calls].
  rewrite summary_app, He, app_nil_r. reflexivity.
Qed.

Lemma preserves_reported_iterate loader : preserves reported (iterate loader).
Proof.
  apply preserves_reported_silent. intros w. unfold iterate.
  destruct (loader_iter loader (torch_rng w)). split; reflexivity.
Qed.

Lemma preserves_reported_float_div_int a n :
  preserves reported (float_div_int a n).
Proof.
  unfold float_div_int.
  apply preserves_if; [apply preserves_raise | apply preserves_ret].
Qed.

Lemma preserves_reported_train_loop (batches : list (list Input * Tensor)) :
  forall epoch len i net opt acc,
    preserves reported (train_loop epoch len i batches net opt acc).
Proof.
  induction batches as [| data rest IH]; intros epoch len i net opt acc;
    cbn [train_loop]; [apply preserves_ret|].
  destruct (adam_step (opt_lr opt) (opt_weight_decay opt) (opt_state opt)
              net (fst data) (snd data)) as [net1 st1].
  apply preserves_bind; [|intros _; apply IH].
  apply preserves_if;
    [apply preserves_reported_print; reflexivity | apply preserves_ret].
Qed.

Lemma preserves_reported_lr_scheduler_step sch opt metrics :
  preserves reported (lr_scheduler_step sch opt metrics).
Proof.
  unfold lr_scheduler_step.
  destruct (Plateau.step _ _ _ _) as [s reduced].
  apply preserves_bind; [|intros _; apply preserves_ret].
  apply preserves_if;
    [apply preserves_reported_print; reflexivity | apply preserves_ret].
Qed.

Lemma preserves_run {X A} (obs : world -> X) (c : M A) w w1 r :
  preserves obs c -> c w = (w1, r) -> obs w1 = obs w.
Proof. intros Hp E. specialize (Hp w). rewrite E in Hp. exact Hp. Qed.

(** A call of [train] that returns reports its loss, and nothing else. *)
Lemma train_ret_reported net epoch loader opt w w1 net1 opt1 train_loss :
  train net epoch loader opt w = (w1, Ret (net1, opt1, train_loss)) ->
  reported w1
  = (summary (stdout w) ++ [PrintEpochCompleted epoch train_loss],
     vis_calls w).
Proof.
  unfold train. intros E.
  apply bind_ret_inv in E. destruct E as (wa & batches & Ea & E).
  apply bind_ret_inv in E. destruct E as (wb & [[n o] l] & Eb & E).
  apply bind_ret_inv in E. destruct E as (wc & mean & Ec & E).
  apply bind_ret_inv in E. destruct E as (wd & [] & Ed & E).
  injection E as <- _ _ <-.
  pose proof (preserves_run _ _ _ _ _ (preserves_reported_iterate _) Ea) as Ra.
  pose proof (preserves_run _ _ _ _ _
                (preserves_reported_train_loop _ _ _ _ _ _ _) Eb) as Rb.
  pose proof (preserves_run _ _ _ _ _
                (preserves_reported_float_div_int _ _) Ec) as Rc.
  cbn [print] in Ed. injection Ed as <-.
  unfold reported in *. cbn [stdout vis_calls].
  rewrite summary_app. cbn [summary].
  injection Ra as Ra1 Ra2. injection Rb as Rb1 Rb2. injection Rc as Rc1 Rc2.
  f_equal; congruence.
Qed.

(** A call of [validate] that returns reports its two metrics. *)
Lemma validate_ret_reported net loader w w1 net1 valid_loss valid_acc :
  validate net loader w = (w1, Ret (net1, valid_loss, valid_acc)) ->
  reported w1
  = (summary (stdout w) ++ [PrintValid valid_loss valid_acc], vis_calls w).
Proof.
  unfold validate. intros E.
  apply bind_ret_inv in E. destruct E as (wa & batches & Ea & E).
  destruct (validate_loop batches (net_eval net) 0%Q 0%Q)
    as [avg_loss avg_acc].
  apply bind_ret_inv in E. destruct E as (wb & m1 & Eb & E).
  apply bind_ret_inv in E. destruct E as (wc & m2 & Ec & E).
  apply bind_ret_inv in E. destruct E as (wd & [] & Ed & E).
  injection E as <- _ <- <-.
  pose proof (preserves_run _ _ _ _ _ (preserves_reported_iterate _) Ea) as Ra.
  pose proof (preserves_run _ _ _ _ _
                (preserves_reported_float_div_int _ _) Eb) as Rb.
  pose proof (preserves_run _ _ _ _ _
                (preserves_reported_float_div_int _ _) Ec) as Rc.
  cbn [print] in Ed. injection Ed as <-.
  unfold reported in *. cbn [stdout vis_calls].
  rewrite summary_app. cbn [summary].
  injection Ra as Ra1 Ra2. injection Rb as Rb1 Rb2. injection Rc as Rc1 Rc2.
  f_equal; congruence.
Qed.

(** A call of [checkpoint] that returns reports the path it saved. *)
Lemma checkpoint_ret_reported net dir epoch valid_loss w w1 :
  checkpoint net dir epoch valid_loss w = (w1, Ret tt) ->
  reported w1
  = (summary (stdout w)
     ++ [PrintCheckpointSaved (checkpoint_path dir epoch valid_loss)],
     vis_calls w).
Proof.
  unfold checkpoint. fold (checkpoint_path dir epoch valid_loss). intros E.
  apply bind_ret_inv in E. destruct E as (wa & b & Ea & E).
  rewrite os_path_exists_spec in Ea. injection Ea as <- <-.
  apply bind_ret_inv in E. destruct E as (wb & [] & Eb & E).
  apply bind_ret_inv in E. destruct E as (wc & [] & Ec & E).
  apply torch_save_ret in Ec. subst wc.
  assert (Hb : stdout wb = stdout w /\ vis_calls wb = vis_calls w).
  { destruct (fs w !! dir); cbn [negb] in Eb.
    - injection Eb as <-. split; reflexivity.
    - apply os_mkdir_ret in Eb. destruct Eb as [_ ->]. split; reflexivity. }
  destruct Hb as [Hs Hv].
  cbn [print] in E. injection E as <-.
  unfold reported. cbn [stdout vis_calls set_fs].
  rewrite summary_app, Hs, Hv. reflexivity.
Qed.

Lemma epoch_loop_reports args todo :
  forall tl vl net opt sch w w',
    epoch_loop args todo tl vl net opt sch w = (w', Ret tt) ->
    exists reports,
      map rep_epoch reports = todo
      /\ summary (stdout w')
         = summary (stdout w)
           ++ flat_map (report_lines (pth_dir args)) reports
      /\ vis_calls w'
         = vis_calls w
           ++ (if visdom args then flat_map report_points reports else []).
Proof.
  induction todo as [| epoch rest IH]; intros tl vl net opt sch w w' E.
  - cbn [epoch_loop] in E. injection E as <-. exists [].
    cbn [map flat_map]. rewrite !app_nil_r.
    destruct (visdom args); rewrite ?app_nil_r; repeat split.
  - cbn [epoch_loop] in E.
    apply bind_ret_inv in E.
    destruct E as (w1 & [[net1 opt1] train_loss] & Et & E).
    apply bind_ret_inv in E.
    destruct E as (w2 & [[net2 valid_loss] valid_acc] & Ev & E).
    apply bind_ret_inv in E. destruct E as (w3 & [sch3 opt3] & Es & E).
    apply bind_ret_inv in E. destruct E as (w4 & [] & Ec & E).
    apply bind_ret_inv in E. destruct E as (w5 & [] & Ep & E).
    apply bind_ret_inv in E. destruct E as (w6 & [] & Evis & E).
    apply train_ret_reported in Et. apply validate_ret_reported in Ev.
    apply (preserves_run _ _ _ _ _
             (preserves_reported_lr_scheduler_step _ _ _)) in Es.
    apply checkpoint_ret_reported in Ec.
    apply (preserves_run _ _ _ _ _
             (preserves_reported_print (PrintText "") eq_refl)) in Ep.
    destruct (IH _ _ _ _ _ _ _ E) as (reports & Hmap & Hsum & Hvis).
    exists (EpochReport epoch train_loss valid_loss valid_acc :: reports).
    unfold reported in *.
    injection Et as Et1 Et2. injection Ev as Ev1 Ev2.
    injection Es as Es1 Es2. injection Ec as Ec1 Ec2.
    injection Ep as Ep1 Ep2.
    assert (H6 : stdout w6 = stdout w5
                 /\ vis_calls w6
                    = vis_calls w5
                      ++ (if visdom args
                          then report_points
                                 (EpochReport epoch train_loss valid_loss
                                              valid_acc)
                          else [])).
    { destruct (visdom args).
      - unfold bind, vis_line_call in Evis. injection Evis as <-.
        cbn [stdout vis_calls]. rewrite <- !app_assoc. split; reflexivity.
      - injection Evis as <-. rewrite app_nil_r. split; reflexivity. }
    destruct H6 as [Hs6 Hv6].
    split; [cbn [map rep_epoch]; rewrite Hmap; reflexivity|].
    split.
    + rewrite Hsum, Hs6, Ep1, Ec1, Es1, Ev1, Et1.
      cbn [flat_map report_lines rep_epoch rep_train_loss rep_valid_loss
           rep_valid_acc app].
      rewrite <- !app_assoc. reflexivity.
    + rewrite Hvis, Hv6, Ep2, Ec2, Es2, Ev2, Et2.
      destruct (visdom args); cbn [flat_map];
        rewrite <- ?app_assoc, ?app_nil_r; reflexivity.
Qed.

Lemma preserves_reported_seed s : preserves reported (seed s).
Proof.
  apply preserves_reported_silent. intros w. unfold seed.
  destruct (cuda_is_available w); split; reflexivity.
Qed.

Lemma preserves_reported_setup_device use_cuda :
  preserves reported (setup_device use_cuda).
Proof.
  unfold setup_device.
  apply preserves_bind;
    [apply preserves_reported_silent; intros w; split; reflexivity|].
  intros available. apply preserves_if; [apply preserves_raise|].
  repeat (apply preserves_bind;
          [apply preserves_reported_print; reflexivity | intros _]).
  apply preserves_ret.
Qed.

Lemma preserves_reported_np_load path : preserves reported (np_load path).
Proof.
  apply preserves_reported_silent. intros w. unfold np_load.
  destruct (fs w !! path) as [[| [a | n]] |]; split; reflexivity.
Qed.

Lemma preserves_reported_get_dataset_loader x y bs th :
  preserves reported (get_dataset_loader x y bs th).
Proof.
  unfold get_dataset_loader.
  repeat (apply preserves_bind;
          [apply preserves_reported_print; reflexivity | intros _]).
  apply preserves_bind; [apply preserves_reported_np_load | intros a].
  apply preserves_bind; [apply preserves_reported_np_load | intros b].
  destruct (make_loader a b bs th);
    [apply preserves_ret | apply preserves_raise].
Qed.

Lemma preserves_reported_build_net ws device :
  preserves reported (build_net ws device).
Proof.
  unfold build_net.
  apply preserves_bind;
    [apply preserves_reported_print; reflexivity | intros _].
  apply preserves_bind.
  - apply preserves_if.
    + repeat (apply preserves_bind;
              [apply preserves_reported_print; reflexivity | intros _]).
      apply preserves_bind; [|intros n; apply preserves_ret].
      apply preserves_reported_silent. intros w. unfold torch_load.
      destruct (fs w !! ws) as [[| [a | n]] |]; split; reflexivity.
    + apply preserves_reported_silent. intros w.
      destruct (net_init (torch_rng w)) as [r n]. split; reflexivity.
  - intros n.
    repeat (apply preserves_bind;
            [apply preserves_reported_print; reflexivity | intros _]).
    apply preserves_ret.
Qed.

Lemma preserves_reported_get_optimizer n a b :
  preserves reported (get_optimizer n a b).
Proof.
  unfold get_optimizer. apply preserves_if; [|apply preserves_raise].
  apply preserves_bind;
    [apply preserves_reported_print; reflexivity | intros _].
  apply preserves_ret.
Qed.

(** X11.  A run of [main] that returns reports every epoch once and in
    order: for each epoch from 1 to N, the line of the training loss, the
    line of the validation loss and accuracy, and the line of the
    checkpoint, whose name carries the epoch and the validation loss of
    that line.  With [--visdom] it plots the three points of [setup_visdom]
    and then, for each epoch, the same three values; without it, it plots
    nothing. *)
Theorem run_reports_each_epoch_once args w w' :
  main args w = (w', Ret tt) ->
  exists reports,
    map rep_epoch reports = epoch_range (epochs args)
    /\ summary (stdout w')
       = summary (stdout w) ++ flat_map (report_lines (pth_dir args)) reports
    /\ vis_calls w'
       = vis_calls w
         ++ (if visdom args
             then setup_points ++ flat_map report_points reports
             else []).
Proof.
  unfold main. intros E.
  apply bind_ret_inv in E. destruct E as (w1 & [] & E1 & E).
  apply bind_ret_inv in E. destruct E as (w2 & [] & E2 & E).
  apply bind_ret_inv in E. destruct E as (w3 & [] & E3 & E).
  apply bind_ret_inv in E. destruct E as (w4 & device & E4 & E).
  apply bind_ret_inv in E. destruct E as (w5 & tl & E5 & E).
  apply bind_ret_inv in E. destruct E as (w6 & vl & E6 & E).
  apply bind_ret_inv in E. destruct E as (w7 & net & E7 & E).
  apply bind_ret_inv in E. destruct E as (w8 & [] & E8 & E).
  apply bind_ret_inv in E. destruct E as (w9 & opt & E9 & E).
  apply bind_ret_inv in E. destruct E as (w10 & sch & E10 & E).
  apply bind_ret_inv in E. destruct E as (w11 & [] & E11 & E).
  apply bind_ret_inv in E. destruct E as (w12 & [] & E12 & E).
  apply (preserves_run _ _ _ _ _
           (preserves_reported_print PrintArgs eq_refl)) in E1.
  apply (preserves_run _ _ _ _ _ (preserves_reported_seed _)) in E2.
  assert (H3 : reported w3
               = (summary (stdout w2),
                  vis_calls w2 ++ (if visdom args then setup_points else []))).
  { destruct (visdom args).
    - unfold setup_visdom, bind, vis_line_call, ret in E3.
      injection E3 as <-. unfold reported. cbn [stdout vis_calls].
      rewrite <- !app_assoc. reflexivity.
    - injection E3 as <-. unfold reported. rewrite app_nil_r. reflexivity. }
  apply (preserves_run _ _ _ _ _ (preserves_reported_setup_device _)) in E4.
  apply (preserves_run _ _ _ _ _
           (preserves_reported_get_dataset_loader _ _ _ _)) in E5.
  apply (preserves_run _ _ _ _ _
           (preserves_reported_get_dataset_loader _ _ _ _)) in E6.
  apply (preserves_run _ _ _ _ _ (preserves_reported_build_net _ _)) in E7.
  unfold get_objective in E8.
  apply (preserves_run _ _ _ _ _
           (preserves_reported_print PrintObjective eq_refl)) in E8.
  apply (preserves_run _ _ _ _ _ (preserves_reported_get_optimizer _ _ _))
    in E9.
  injection E10 as <- _.
  apply (preserves_run _ _ _ _ _
           (preserves_reported_print (PrintText "") eq_refl)) in E11.
  apply (preserves_run _ _ _ _ _
           (preserves_reported_print (PrintText "Training...") eq_refl))
    in E12.
  destruct (epoch_loop_reports _ _ _ _ _ _ _ _ _ E)
    as (reports & Hmap & Hsum & Hvis).
  exists reports. split; [exact Hmap|].
  assert (H12 : reported w12
                = (summary (stdout w),
                   vis_calls w ++ (if visdom args then setup_points else []))).
  { rewrite E12, E11, E9, E8, E7, E6, E5, E4, H3.
    unfold reported in E1, E2.
    injection E1 as E1a E1b. injection E2 as E2a E2b.
    f_equal; congruence. }
  unfold reported in H12. injection H12 as Hs12 Hv12.
  split.
  - rewrite Hsum, Hs12. reflexivity.
  - rewrite Hvis, Hv12. destruct (visdom args);
      rewrite <- ?app_assoc, ?app_nil_r; reflexivity.
Qed.

End Reports.

Section DataErrors.
Context `{Collaborators}.








End DataErrors.

Section Announced.
Context `{Collaborators}.








End Announced.

(* ===================================================================== *)
(** ** The properties on the data of [Toy] *)
(* ===================================================================== *)


(** The validation pass over the two batches returns. *)
Lemma validate_toy_returns :
  @validate Toy.collaborators 1%Q [Toy.b1; Toy.b2] Toy.machine
  = (fst (@validate Toy.collaborators 1%Q [Toy.b1; Toy.b2] Toy.machine),
     Ret (1%Q, (20000 # 10000)%Q, (5000 # 10000)%Q)).
Proof.
  assert (E : snd (@validate Toy.collaborators 1%Q [Toy.b1; Toy.b2]
                     Toy.machine)
              = Ret (1%Q, (20000 # 10000)%Q, (5000 # 10000)%Q)) by (vm_compute; reflexivity).
  destruct (@validate Toy.collaborators 1%Q [Toy.b1; Toy.b2] Toy.machine)
    as [w r].
  cbn [fst snd] in *. rewrite E. reflexivity.
Defined.

(** Witness of X2: one batch of two matches, one of none. *)
Lemma validate_accuracy_in_unit_interval_witness :
  (0 <= 5000 # 10000)%Q /\ (5000 # 10000 <= 1)%Q.
Proof.
  apply (@validate_accuracy_in_unit_interval Toy.collaborators
           1%Q [Toy.b1; Toy.b2] Toy.machine
           (fst (@validate Toy.collaborators 1%Q [Toy.b1; Toy.b2]
                   Toy.machine))
           1%Q (20000 # 10000)%Q (5000 # 10000)%Q squash_range).
  - repeat constructor.
  - exact validate_toy_returns.
Defined.


(** Witness of X4: two batches print no progress line. *)
Lemma train_progress_every_10000_batches_witness :
  progress_indices
    (stdout (fst (@train Toy.collaborators 0%Q 1 [Toy.b1; Toy.b2] Toy.opt0
                    Toy.machine)))
  = progress_indices (stdout Toy.machine).
Proof.
  apply (proj2 (@train_progress_every_10000_batches Toy.collaborators
                  0%Q 1 [Toy.b1; Toy.b2] Toy.opt0 Toy.machine)).
  simpl. lia.
Defined.

(** Witness of X5: a target of 1/2. *)
Lemma non_binary_targets_never_match_witness :
  (@batch_accuracy Toy.collaborators [[2%Q]] [[(1 # 2)%Q]] 1 == 0)%Q.
Proof.
  apply (@non_binary_targets_never_match Toy.collaborators
           [[2%Q]] [[(1 # 2)%Q]] 1%nat squash_range).
  - repeat constructor.
  - constructor; [|constructor].
    apply Exists_cons_hd. split; intros E; discriminate E.
Defined.


(** The first checkpoint on the machine of [Toy] is saved. *)
Lemma checkpoint_toy_returns :
  @checkpoint Toy.collaborators 0%Q "checkpoints" 1 (1 # 2) Toy.machine
  = (fst (@checkpoint Toy.collaborators 0%Q "checkpoints" 1 (1 # 2)
            Toy.machine), Ret tt).
Proof. reflexivity. Defined.

(** Witness of X7: the checkpoint of one epoch saved twice. *)
Lemma checkpoint_again_replaces_witness :
  exists w2 : @world Toy.collaborators,
    @checkpoint Toy.collaborators 1%Q "checkpoints" 1 (1 # 2)
      (fst (@checkpoint Toy.collaborators 0%Q "checkpoints" 1 (1 # 2)
              Toy.machine))
    = (w2, Ret tt)
    /\ fs w2
       = <[@checkpoint_path Toy.collaborators "checkpoints" 1 (1 # 2)
           := @File Toy.collaborators (@Pth Toy.collaborators 1%Q)]>
           (fs (fst (@checkpoint Toy.collaborators 0%Q "checkpoints" 1
                       (1 # 2) Toy.machine)))
    /\ fs w2 !! @checkpoint_path Toy.collaborators "checkpoints" 1 (1 # 2)
       = Some (@File Toy.collaborators (@Pth Toy.collaborators 1%Q)).
Proof.
  exact (@checkpoint_again_replaces Toy.collaborators 0%Q 1%Q
           "checkpoints" 1 (1 # 2) Toy.machine _ checkpoint_toy_returns).
Defined.

(** Witness of X8: the training data after the run. *)
Lemma main_writes_only_checkpoints_witness :
  fs (fst (@main Toy.collaborators Toy.args Toy.machine))
    !! "./data/X_train.npy"%string
  = fs Toy.machine !! "./data/X_train.npy"%string.
Proof.
  apply (proj1 (@main_writes_only_checkpoints Toy.collaborators Toy.args
                  Toy.machine)).
  - discriminate.
  - intros k l _. unfold checkpoint_path. change (pth_dir Toy.args)
      with "checkpoints"%string.
    destruct (@os_path_join_checkpoint_name Toy.collaborators "checkpoints")
      as (pre & Hpre & Hj).
    rewrite Hj. destruct Hpre as [-> | ->]; discriminate.
Defined.

(** Witness of X9: [--epochs 0]. *)
Lemma no_epoch_no_checkpoint_witness :
  fs (fst (@main Toy.collaborators Cases.args_no_epoch Toy.machine))
  = fs Toy.machine
  /\ saved_paths
       (stdout (fst (@main Toy.collaborators Cases.args_no_epoch
                       Toy.machine)))
     = saved_paths (stdout Toy.machine).
Proof.
  apply (@no_epoch_no_checkpoint Toy.collaborators Cases.args_no_epoch
           Toy.machine).
  simpl. lia.
Defined.

(** Witness of X11: three epochs on the data of [Toy]. *)
Lemma run_reports_each_epoch_once_witness :
  exists reports,
    map rep_epoch reports = epoch_range (epochs Toy.args)
    /\ summary (stdout (fst (@main Toy.collaborators Toy.args Toy.machine)))
       = summary (stdout Toy.machine)
         ++ flat_map (@report_lines Toy.collaborators (pth_dir Toy.args))
              reports
    /\ vis_calls (fst (@main Toy.collaborators Toy.args Toy.machine))
       = vis_calls Toy.machine
         ++ (if visdom Toy.args
             then setup_points ++ flat_map report_points reports
             else []).
Proof.
  exact (@run_reports_each_epoch_once Toy.collaborators Toy.args Toy.machine
           _ main_toy_returns).
Defined.


